(** * The Types modal and the usage switcher of the date-fns.org front end

    A shallow embedding of the view-layer logic of
    [src/ui/screens/Docs/Doc/TypeDoc/Types/index.tsx] (the extraction of
    documentable types, the search filter and the parent-type index) and
    of the [DocUsage] component (the persisted usage-tab selector).

    The accumulator array of [extractTypes] is a JavaScript object that is
    allocated, passed by reference and mutated in place: it lives in an
    explicit store.  The map of [buildParentTypesMap] is one object handed
    down the recursion, so it is threaded through the calls.  The TypeDoc
    tree itself is only ever read (no function assigns to a node), so it is
    an ordinary value. *)

From Stdlib Require Import ZArith List Ascii String Bool Lia.
From stdpp Require Import base option list gmap strings.
Import ListNotations.

Local Open Scope Z_scope.
Local Open Scope string_scope.
Local Open Scope list_scope.

(** ** The TypeDoc data model *)

(** A reflection (declaration, call signature or type parameter) with the
    fields the modal reads, and the type expressions hanging off it.  For a
    type expression only the discriminant matters to the code under study:
    it is either a ['reflection'] (an anonymous inline declaration) or some
    other expression that carries its component expressions. *)
#[local] Unset Elimination Schemes.
Inductive Reflection : Type :=
| mkReflection
    (id : Z)
    (name : string)
    (kindString : option string)
    (children : option (list Reflection))
    (signatures : option (list Reflection))
    (typeParameter : option (list Reflection))
    (typeParameters : option (list Reflection))
    (type_ : option SomeType)
with SomeType : Type :=
| ReflectionType (declaration : option Reflection)
| OtherType (parts : list SomeType).
#[local] Set Elimination Schemes.

Definition id (r : Reflection) : Z :=
  match r with mkReflection i _ _ _ _ _ _ _ => i end.
Definition name (r : Reflection) : string :=
  match r with mkReflection _ n _ _ _ _ _ _ => n end.
Definition kindString (r : Reflection) : option string :=
  match r with mkReflection _ _ k _ _ _ _ _ => k end.
Definition children (r : Reflection) : option (list Reflection) :=
  match r with mkReflection _ _ _ c _ _ _ _ => c end.
Definition signatures (r : Reflection) : option (list Reflection) :=
  match r with mkReflection _ _ _ _ s _ _ _ => s end.
Definition typeParameter (r : Reflection) : option (list Reflection) :=
  match r with mkReflection _ _ _ _ _ p _ _ => p end.
Definition typeParameters (r : Reflection) : option (list Reflection) :=
  match r with mkReflection _ _ _ _ _ _ p _ => p end.
Definition type_ (r : Reflection) : option SomeType :=
  match r with mkReflection _ _ _ _ _ _ _ t => t end.

(** Nested induction: the generated scheme says nothing about the
    reflections stored in the list fields. *)
Definition OptP {A} (P : A -> Prop) (o : option A) : Prop :=
  match o with Some x => P x | None => True end.

Section Induction.
Variable P : Reflection -> Prop.
Variable Q : SomeType -> Prop.
Hypothesis P_node : forall i n k ch sg tp tps ty,
  OptP (Forall P) ch -> OptP (Forall P) sg ->
  OptP (Forall P) tp -> OptP (Forall P) tps -> OptP Q ty ->
  P (mkReflection i n k ch sg tp tps ty).
Hypothesis Q_reflection : forall d, OptP P d -> Q (ReflectionType d).
Hypothesis Q_other : forall parts, Forall Q parts -> Q (OtherType parts).

Fixpoint Reflection_nested_ind (r : Reflection) : P r :=
  let all : forall l : list Reflection, Forall P l :=
    fix all l := match l with
                 | [] => @List.Forall_nil _ P
                 | x :: l' => @List.Forall_cons _ P x l' (Reflection_nested_ind x) (all l')
                 end in
  let opt (o : option (list Reflection)) : OptP (Forall P) o :=
    match o with Some l => all l | None => I end in
  match r with
  | mkReflection i n k ch sg tp tps ty =>
      P_node i n k ch sg tp tps ty (opt ch) (opt sg) (opt tp) (opt tps)
        (match ty return OptP Q ty with
         | Some t0 => SomeType_nested_ind t0
         | None => I
         end)
  end
with SomeType_nested_ind (t : SomeType) : Q t :=
  match t with
  | ReflectionType d =>
      Q_reflection d
        (match d return OptP P d with
         | Some r0 => Reflection_nested_ind r0
         | None => I
         end)
  | OtherType parts =>
      Q_other parts
        ((fix all (l : list SomeType) : Forall Q l :=
            match l with
                       | [] => @List.Forall_nil _ Q
                       | x :: l' => @List.Forall_cons _ Q x l' (SomeType_nested_ind x) (all l')
                       end) parts)
  end.
End Induction.

(** ** The JavaScript store

    Arrays are objects: they are allocated, passed by reference and
    mutated in place.  The store also keeps what was written to the
    console. *)
Definition loc := nat.

Record Store : Type := mkStore {
  arrays : gmap nat (list Reflection);
  console : list (option string * Reflection)
}.

Definition emptyStore : Store := mkStore ∅ [].

(** [[]]: a fresh, empty array. *)
Definition newArray (σ : Store) : loc * Store :=
  let l := fresh (dom (arrays σ)) in
  (l, mkStore (<[l := []]> (arrays σ)) (console σ)).

(** [types.push(x)]; every reference the code holds comes from
    [newArray], so [types] is always allocated. *)
Definition push (types : loc) (x : Reflection) (σ : Store) : Store :=
  mkStore (alter (fun a => a ++ [x]) types (arrays σ)) (console σ).

(** [console.log('~~~ UNHANDLED TYPE', child.kindString, child)] *)
Definition consoleLog (k : option string) (r : Reflection) (σ : Store) : Store :=
  mkStore (arrays σ) (console σ ++ [(k, r)]).

(** ** extractTypes *)

(** The case labels of the [switch (child.kindString)]. *)
Definition isIgnoredKind (k : option string) : bool :=
  match k with
  | Some s => String.eqb s "Module" || String.eqb s "Function"
  | None => false
  end.

Definition isTypeKind (k : option string) : bool :=
  match k with
  | Some s => String.eqb s "Interface" || String.eqb s "Type alias"
  | None => false
  end.

(** [extractTypes(dec, acc?)] returns the reference of the array it
    filled: [acc] when given, a fresh array otherwise. *)
Fixpoint extractTypes (dec : Reflection) (acc : option loc) (σ : Store)
  {struct dec} : loc * Store :=
  let '(types, σ0) :=
    match acc with Some a => (a, σ) | None => newArray σ end in
  match children dec with
  | None => (types, σ0)
  | Some cs =>
      (types,
       (fix forEach (cs : list Reflection) (σ : Store) {struct cs} : Store :=
          match cs with
          | [] => σ
          | child :: rest =>
              forEach rest
                (if isIgnoredKind (kindString child) then σ
                 else if isTypeKind (kindString child) then push types child σ
                 else
                   let σ1 := consoleLog (kindString child) child σ in
                   match children child with
                   | Some _ => snd (extractTypes child (Some types) σ1)
                   | None => σ1
                   end)
          end) cs σ0)
  end.

(** What one call appends to its array, and what it writes to the
    console: the content of the effects of [extractTypes], as lists. *)
Fixpoint collected (dec : Reflection) : list Reflection :=
  match children dec with
  | None => []
  | Some cs =>
      flat_map (fun child =>
        if isIgnoredKind (kindString child) then []
        else if isTypeKind (kindString child) then [child]
        else collected child) cs
  end.

Fixpoint logged (dec : Reflection) : list (option string * Reflection) :=
  match children dec with
  | None => []
  | Some cs =>
      flat_map (fun child =>
        if isIgnoredKind (kindString child) then []
        else if isTypeKind (kindString child) then []
        else (kindString child, child) :: logged child) cs
  end.

(** *** Document order and the shape of well-nested trees *)

(** Every node strictly below [dec], in pre-order (document order). *)
Fixpoint descendants (dec : Reflection) : list Reflection :=
  match children dec with
  | None => []
  | Some cs => flat_map (fun child => child :: descendants child) cs
  end.

Definition isType (r : Reflection) : bool := isTypeKind (kindString r).

(** Every Interface / Type alias node below [dec] sits directly under
    [dec] or under a chain of nodes of unrecognised kind: nothing of these
    two kinds hides below a Module, a Function, an Interface or a Type
    alias. *)
Fixpoint typesOnlyUnderWrappers (dec : Reflection) : bool :=
  match children dec with
  | None => true
  | Some cs =>
      forallb (fun child =>
        if isIgnoredKind (kindString child) || isTypeKind (kindString child)
        then forallb (fun r => negb (isType r)) (descendants child)
        else typesOnlyUnderWrappers child) cs
  end.

Definition setChildren (r : Reflection) (cs : option (list Reflection)) : Reflection :=
  match r with
  | mkReflection i n k _ sg tp tps ty => mkReflection i n k cs sg tp tps ty
  end.

(** The tree [dec] with the content of every Module and Function met by
    the walk replaced by whatever [g] puts there. *)
Fixpoint replaceIgnored (g : Reflection -> option (list Reflection))
    (dec : Reflection) : Reflection :=
  match children dec with
  | None => dec
  | Some cs =>
      setChildren dec
        (Some (map (fun child =>
           if isIgnoredKind (kindString child) then setChildren child (g child)
           else if isTypeKind (kindString child) then child
           else replaceIgnored g child) cs))
  end.


(** ** buildParentTypesMap *)

(** Modelled from the spec: [traverseType] is imported from
    [@date-fns/docs/utils] and is not part of the sources at hand.  The
    walk it performs is the one section 4.3 describes: the callback sees
    the expression and then every expression nested in it, left to right.
    An inline declaration is handed to the callback as it is; what lies
    inside it is the caller's business. *)
Fixpoint traverseType (t : SomeType) : list SomeType :=
  t :: match t with
       | ReflectionType _ => []
       | OtherType parts => flat_map traverseType parts
       end.

Section ParentTypes.

(** [inlineTypeHash] of [~/utils/docs]: the display tag of a type
    parameter, anchored to the type given first.  Its format belongs to
    the router; the index only stores what it returns. *)
Variable inlineTypeHash : Reflection -> Reflection -> string.

(** [(refl && type?.typeParameter) || type?.typeParameters]: an array,
    even an empty one, is truthy, so the second field is read only when
    the first is missing. *)
Definition declaredParams (type : Reflection) : option (list Reflection) :=
  match typeParameter type with
  | Some ps => Some ps
  | None => typeParameters type
  end.

(** [map[ref.id] = inlineTypeHash(refl, ref)] *)
Definition register (refl : Reflection) (map : gmap Z string)
    (ref : Reflection) : gmap Z string :=
  <[id ref := inlineTypeHash refl ref]> map.

(** [refl && (...)?.map((ref) => { map[ref.id] = inlineTypeHash(refl, ref) })] *)
Definition registerParams (refl : option Reflection) (type : Reflection)
    (map : gmap Z string) : gmap Z string :=
  match refl with
  | None => map
  | Some focal =>
      match declaredParams type with
      | Some ps => fold_left (register focal) ps map
      | None => map
      end
  end.

(** The body of [buildParentTypesMap] for a [type] that is present, the
    map being threaded through the calls as the one object it is.
    [walk] is [traverseType] run with the callback of the source, the
    two being fused so that the recursion is structural (see
    [walk_traverseType]). *)
Fixpoint visit (refl : option Reflection) (type : Reflection)
    (map : gmap Z string) {struct type} : gmap Z string :=
  let map := registerParams refl type map in
  match type_ type with
  | Some t => walk refl t map
  | None => map
  end
with walk (refl : option Reflection) (t : SomeType)
    (map : gmap Z string) {struct t} : gmap Z string :=
  match t with
  | ReflectionType (Some declaration) =>
      match signatures declaration with
      | Some sigs => fold_left (fun m signature => visit refl signature m) sigs map
      | None => map
      end
  | ReflectionType None => map
  | OtherType parts => fold_left (fun m part => walk refl part m) parts map
  end.

(** The callback handed to [traverseType]. *)
Definition onReflection (refl : option Reflection) (ref : SomeType)
    (map : gmap Z string) : gmap Z string :=
  match ref with
  | ReflectionType (Some declaration) =>
      match signatures declaration with
      | Some sigs => fold_left (fun m signature => visit refl signature m) sigs map
      | None => map
      end
  | _ => map
  end.

(** [buildParentTypesMap(refl, type = refl, accMap?)] *)
Definition buildParentTypesMap (refl : option Reflection)
    (type : option Reflection) (accMap : option (gmap Z string)) : gmap Z string :=
  let type := match type with Some t => Some t | None => refl end in
  let map := match accMap with Some m => m | None => ∅ end in
  match type with
  | Some t => visit refl t map
  | None => map
  end.

End ParentTypes.

(** *** Visit levels *)

(** The call signatures of an inline declaration. *)
Definition signaturesOf (ref : SomeType) : list Reflection :=
  match ref with
  | ReflectionType (Some declaration) =>
      match signatures declaration with Some sigs => sigs | None => [] end
  | _ => []
  end.

(** The call signatures found in the inline declarations of the type
    expression of [type]. *)
Definition inlineSignatures (type : Reflection) : list Reflection :=
  match type_ type with
  | Some t => flat_map signaturesOf (traverseType t)
  | None => []
  end.

(** The nodes visited [n] inline declarations deep: the node itself at
    depth 0, the signatures of its inline declarations at depth 1, theirs
    at depth 2, and so on. *)
Fixpoint levelAt (n : nat) (type : Reflection) : list Reflection :=
  match n with
  | O => [type]
  | S k => flat_map (levelAt k) (inlineSignatures type)
  end.

Definition paramsOf (type : Reflection) : list Reflection :=
  match declaredParams type with Some ps => ps | None => [] end.

(** Every parameter under either field name. *)
Definition paramsUnderEither (type : Reflection) : list Reflection :=
  match typeParameter type with Some ps => ps | None => [] end ++
  match typeParameters type with Some ps => ps | None => [] end.

(** All the parameters a visit registers, in the order in which it
    registers them. *)
Fixpoint registered (type : Reflection) : list Reflection :=
  paramsOf type ++
  match type_ type with
  | Some t => registeredIn t
  | None => []
  end
with registeredIn (t : SomeType) : list Reflection :=
  match t with
  | ReflectionType (Some declaration) =>
      match signatures declaration with
      | Some sigs => flat_map registered sigs
      | None => []
      end
  | ReflectionType None => []
  | OtherType parts => flat_map registeredIn parts
  end.

(** A type parameter, and an inline function type nested [n] deep:
    [<T1>() => <T2>() => ... => <Tn>() => void], the parameter of the
    signature at depth [k] carrying the id [k]. *)
Definition typeParam (i : Z) : Reflection :=
  mkReflection i "T" (Some "Type parameter") None None None None None.

Fixpoint nestedFn (depth : nat) (n : nat) : SomeType :=
  match n with
  | O => OtherType []
  | S k =>
      ReflectionType (Some
        (mkReflection 0 "__type" (Some "Type literal") None
           (Some [mkReflection 0 "__type" (Some "Call signature") None None
                    (Some [typeParam (Z.of_nat (S depth))]) None
                    (Some (nestedFn (S depth) k))])
           None None None))
  end.

Definition deepAlias (n : nat) : Reflection :=
  mkReflection 0 "Deep" (Some "Type alias") None None None None
    (Some (nestedFn 0 n)).

(** A tag in the style of the router's fragments, for the examples. *)
Definition sampleHash (refl ref : Reflection) : string :=
  name refl ++ "/" ++ name ref.

(** ** The search filter *)

Record TypeItem : Type := mkTypeItem {
  type : Reflection;
  summary : option string;
  description : option string
}.

(** Strings are modelled as sequences of 8-bit characters; [toLowerCase]
    maps the letters [A]..[Z] to [a]..[z] and leaves every other character
    alone. *)
Definition isUpper (c : ascii) : bool :=
  (65 <=? nat_of_ascii c)%nat && (nat_of_ascii c <=? 90)%nat.

Definition lowerChar (c : ascii) : ascii :=
  if isUpper c then ascii_of_nat (nat_of_ascii c + 32) else c.

Fixpoint toLowerCase (s : string) : string :=
  match s with
  | EmptyString => EmptyString
  | String c s' => String (lowerChar c) (toLowerCase s')
  end.

(** [s.includes(q)]: [q] occurs in [s] at some position. *)
Fixpoint includes (s q : string) : bool :=
  String.prefix q s ||
  match s with
  | EmptyString => false
  | String _ s' => includes s' q
  end.

(** [item.summary?.toLowerCase().includes(q)]: [undefined], hence falsy,
    when the field is missing. *)
Definition optIncludes (field : option string) (q : string) : bool :=
  match field with
  | Some s => includes (toLowerCase s) q
  | None => false
  end.

(** The [filteredNav] memo; the empty query is the falsy one. *)
Definition filteredNav (navItems : list TypeItem) (query : string) : list TypeItem :=
  if String.eqb query "" then navItems
  else
    List.filter (fun item =>
      includes (toLowerCase (name (type item))) (toLowerCase query)
      || optIncludes (summary item) (toLowerCase query)
      || optIncludes (description item) (toLowerCase query)) navItems.

(** *** Matching up to case, in the words of the specification *)

(** Two characters that are the same letter up to case. *)
Definition sameUpToCase (a b : ascii) : Prop :=
  a = b
  \/ (isUpper a = true /\ nat_of_ascii b = (nat_of_ascii a + 32)%nat)
  \/ (isUpper b = true /\ nat_of_ascii a = (nat_of_ascii b + 32)%nat).

Fixpoint equalUpToCase (s q : string) : Prop :=
  match s, q with
  | EmptyString, EmptyString => True
  | String a s', String b q' => sameUpToCase a b /\ equalUpToCase s' q'
  | _, _ => False
  end.

(** [q] occurs in [s] as a substring, letter case apart. *)
Definition containsUpToCase (s q : string) : Prop :=
  exists before middle after : string,
    s = (before ++ middle ++ after)%string /\ equalUpToCase middle q.

Definition matchesQuery (item : TypeItem) (query : string) : Prop :=
  containsUpToCase (name (type item)) query
  \/ (exists s, summary item = Some s /\ containsUpToCase s query)
  \/ (exists d, description item = Some d /\ containsUpToCase d query).

(** ** DocUsage *)

Definition LOCALSTORAGE_KEY : string := "usageSource".
Definition DEFAULT_SOURCE : string := "commonjs".

Record FnUsageItem : Type := mkFnUsageItem {
  title : string;
  code : string;
  text : option string
}.

Record Props : Type := mkProps {
  usage : gmap string FnUsageItem;
  usageTabs : list string
}.

(** The component's [source] state and the browser's [localStorage]. *)
Record World : Type := mkWorld {
  source : string;
  localStorage : gmap string string
}.

Definition getItem (key : string) (storage : gmap string string) : option string :=
  storage !! key.

Definition setItem (key value : string) (storage : gmap string string)
  : gmap string string :=
  <[key := value]> storage.

(** [useState(DEFAULT_SOURCE)]: the component as first rendered. *)
Definition mount (storage : gmap string string) : World :=
  mkWorld DEFAULT_SOURCE storage.

(** The effect that runs once after the first render.  [null] and the
    empty string are the falsy values [getItem] can return. *)
Definition onMount (w : World) : World :=
  match getItem LOCALSTORAGE_KEY (localStorage w) with
  | Some localStorageSource =>
      if String.eqb localStorageSource ""
      then mkWorld (source w) (setItem LOCALSTORAGE_KEY (source w) (localStorage w))
      else mkWorld localStorageSource (localStorage w)
  | None =>
      mkWorld (source w) (setItem LOCALSTORAGE_KEY (source w) (localStorage w))
  end.

(** The [onClick] handler of a tab. *)
Definition onClick (usageTab : string) (w : World) : World :=
  mkWorld usageTab (setItem LOCALSTORAGE_KEY usageTab (localStorage w)).

(** [usageTabs.includes(source)] *)
Definition tabsInclude (tabs : list string) (s : string) : bool :=
  existsb (String.eqb s) tabs.

(** [usageTabs.includes(source) ? source : usageTabs[0]]; [None] is
    [undefined], the value of [usageTabs[0]] when there is no tab. *)
Definition selectedTab (p : Props) (w : World) : option string :=
  if tabsInclude (usageTabs p) (source w) then Some (source w)
  else head (usageTabs p).

(** A property key: [undefined] is converted to the string ["undefined"]. *)
Definition propertyKey (k : option string) : string :=
  match k with Some s => s | None => "undefined" end.

(** [usage[selectedTab]], own properties only. *)
Definition selectedUsage (p : Props) (w : World) : option FnUsageItem :=
  usage p !! propertyKey (selectedTab p w).

(** What the component renders: one link per tab that has a usage entry
    ([null] for the others) and the content of the selected usage. *)
Record TabLink : Type := mkTabLink {
  key : string;
  linkTitle : string;
  isCurrent : bool
}.

Record View : Type := mkView {
  options : list (option TabLink);
  contentCode : string;
  contentText : option string
}.

Inductive Outcome : Type :=
| Rendered (v : View)
| TypeError.

Definition optionEqb (a : option string) (b : string) : bool :=
  match a with Some s => String.eqb s b | None => false end.

(** The render function; reading [.code] of [undefined] throws. *)
Definition DocUsage (p : Props) (w : World) : Outcome :=
  let links :=
    map (fun usageTab =>
      match usage p !! usageTab with
      | None => None
      | Some usageItem =>
          Some (mkTabLink usageTab (title usageItem)
                  (optionEqb (selectedTab p w) usageTab))
      end) (usageTabs p) in
  match selectedUsage p w with
  | None => TypeError
  | Some u => Rendered (mkView links (code u) (text u))
  end.

(** The persisted preference as the component understands it. *)
Definition storedPreference (storage : gmap string string) : option string :=
  match getItem LOCALSTORAGE_KEY storage with
  | Some s => if String.eqb s "" then None else Some s
  | None => None
  end.

(** ** Sample inputs *)

Definition leaf (i : Z) (n kind : string) : Reflection :=
  mkReflection i n (Some kind) None None None None None.

Definition group (i : Z) (n kind : string) (cs : list Reflection) : Reflection :=
  mkReflection i n (Some kind) (Some cs) None None None None.

(** A project with two interfaces at the top, an alias inside a namespace
    (a kind the switch does not know) and a module that is skipped. *)
Definition sampleProject : Reflection :=
  mkReflection 0 "date-fns" (Some "Project")
    (Some [ leaf 1 "Interval" "Interface";
            group 2 "add" "Module" [leaf 3 "add" "Function"];
            group 4 "fp" "Namespace"
              [ leaf 5 "Duration" "Type alias"; leaf 6 "format" "Function" ];
            leaf 7 "Locale" "Interface" ])
    None None None None.

(** [type Mapper<T> = <U>(value: T) => U]: a generic alias whose type is
    an inline function type with a type parameter of its own. *)
Definition sampleQ : Reflection := mkReflection 12 "U" (Some "Type parameter") None None None None None.
Definition sampleP : Reflection := mkReflection 11 "T" (Some "Type parameter") None None None None None.

Definition sampleSignature : Reflection :=
  mkReflection 13 "__type" (Some "Call signature") None None
    (Some [sampleQ]) None (Some (OtherType [])).

Definition sampleMapper : Reflection :=
  mkReflection 10 "Mapper" (Some "Type alias") None None None (Some [sampleP])
    (Some (ReflectionType (Some
       (mkReflection 14 "__type" (Some "Type literal") None
          (Some [sampleSignature]) None None None)))).

(** The signature met [n] levels down in [deepAlias m], for [n <= m]: it
    declares the parameter with id [n]. *)
Definition deepSignature (n rest : nat) : Reflection :=
  mkReflection 0 "__type" (Some "Call signature") None None
    (Some [typeParam (Z.of_nat n)]) None (Some (nestedFn n rest)).

(** A node that carries both field names. *)
Definition sampleBoth : Reflection :=
  mkReflection 20 "Both" (Some "Type alias") None None
    (Some []) (Some [sampleP]) None.

Definition sampleItems : list TypeItem :=
  [ mkTypeItem (leaf 1 "Interval" "Interface") (Some "An object with start and end") None;
    mkTypeItem (leaf 5 "Duration" "Type alias") None (Some "Years, months and DAYS");
    mkTypeItem (leaf 7 "Locale" "Interface") None None ].

Definition sampleUsage : gmap string FnUsageItem :=
  {[ "commonjs" := mkFnUsageItem "CommonJS" "const { Interval } = require('date-fns')" None;
     "esm" := mkFnUsageItem "ESM" "import type { Interval } from 'date-fns'" None ]}.


(** * The rest of the modal *)

(** ** buildMap *)

(** [types.forEach((type) => { map[type.id] = type })], from the empty
    object. *)
Definition buildMap (types : list Reflection) : gmap Z Reflection :=
  fold_left (fun map type => <[id type := type]> map) types ∅.

(** ** The kinds *)

Definition kindHasUsage (kindString : string) : bool :=
  if String.eqb kindString "Type alias" then true
  else if String.eqb kindString "Interface" then true
  else false.

Inductive BadgeStyle : Type := alias | interface | generic.

Definition kindToBadgeStyle (kindString : string) : BadgeStyle :=
  if String.eqb kindString "Type alias" then alias
  else if String.eqb kindString "Interface" then interface
  else if String.eqb kindString "Type parameter" then generic
  else alias.

Definition kindToBadgeTitle (kindString : string) : string :=
  if String.eqb kindString "Type alias" then "Alias"
  else if String.eqb kindString "Interface" then "Interface"
  else if String.eqb kindString "Type parameter" then "Generic"
  else "TODO".

(** ** TypeContent *)

(** What [TypeContent] returns: [null], the Interface section with the
    members it lists, or the wrapper of a type parameter with its default
    type when it has one. *)
Inductive Content : Type :=
| NoContent
| InterfaceContent (list_ : list Reflection)
| TypeParameterContent (default : option SomeType).

Section TypeContent.

(** The [default] field of a reflection, which is not among the fields of
    [Reflection]. *)
Variable default_ : Reflection -> option SomeType.

(** [!type.children?.length] holds when [children] is missing or empty. *)
Definition TypeContent (type : Reflection) : Content :=
  match kindString type with
  | Some k =>
      if String.eqb k "Interface" then
        match children type with
        | Some (c :: cs) => InterfaceContent (c :: cs)
        | _ => NoContent
        end
      else if String.eqb k "Type parameter" then TypeParameterContent (default_ type)
      else NoContent
  | None => NoContent
  end.

End TypeContent.

(** ** useTypesModal *)

(** The array an array reference stands for. *)
Definition readArray (σ : Store) (l : loc) : list Reflection :=
  match arrays σ !! l with Some a => a | None => [] end.

(** [types], the value of [extractTypes(doc)]. *)
Definition modalTypes (doc : Reflection) (σ : Store) : list Reflection :=
  let '(types, σ') := extractTypes doc None σ in readArray σ' types.

(** [type = map[typeId]] *)
Definition modalType (doc : Reflection) (typeId : Z) (σ : Store) : option Reflection :=
  buildMap (modalTypes doc σ) !! typeId.

Section ModalUsage.

(** [generateTypeUsage] of [~/utils/docs], which returns an object. *)
Variable Usage : Type.
Variable generateTypeUsage : string -> Usage.

(** [type?.kindString && kindHasUsage(type.kindString) &&
    generateTypeUsage(type.name)]; [None] stands for the falsy values the
    chain can stop at ([undefined], the empty string, [false]). *)
Definition modalUsage (type : option Reflection) : option Usage :=
  match type with
  | None => None
  | Some t =>
      match kindString t with
      | None => None
      | Some k =>
          if String.eqb k "" then None
          else if kindHasUsage k then Some (generateTypeUsage (name t))
          else None
      end
  end.

End ModalUsage.

Section NavItems.

(** [findSummary] and [findDescription] of [@date-fns/docs/utils]. *)
Variable findSummary : Reflection -> option string.
Variable findDescription : Reflection -> option string.

(** [types.map((t) => ({ type: t, summary, description }))] *)
Definition navItems (types : list Reflection) : list TypeItem :=
  map (fun t => mkTypeItem t (findSummary t) (findDescription t)) types.

End NavItems.

(** *** Helpers for the statements *)

(** The last element of [l] with the id [k]. *)
Fixpoint lastWithId (k : Z) (l : list Reflection) : option Reflection :=
  match l with
  | [] => None
  | x :: l' =>
      match lastWithId k l' with
      | Some y => Some y
      | None => if Z.eqb (id x) k then Some x else None
      end
  end.

(** A node of a kind the [switch] of [extractTypes] has no case for. *)
Definition isUnhandledKind (k : option string) : bool :=
  negb (isIgnoredKind k) && negb (isTypeKind k).

(** One entry of the navigation: the [Item] rendered for a nav item. *)
Record NavEntry : Type := mkNavEntry {
  entryTitle : string;
  entrySummary : option string;
  entryActive : bool
}.

(** [summary || description]: the description stands in for a summary
    that is missing or empty. *)
Definition summaryOrDescription (item : TypeItem) : option string :=
  match summary item with
  | Some s => if String.eqb s "" then description item else Some s
  | None => description item
  end.

(** [filteredNav.map(({ type, summary, description }) => <Item ... />)] *)
Definition navEntries (typeId : Z) (filteredNav : list TypeItem) : list NavEntry :=
  map (fun item =>
         mkNavEntry (name (type item)) (summaryOrDescription item)
           (Z.eqb (id (type item)) typeId)) filteredNav.

(** ** The search filter over the built-in case mapping *)

(** [String.prototype.toLowerCase] follows the case mapping of Unicode,
    which is not written out here: in this module the filter takes it as
    a parameter, so that what is proved of it holds of the built-in.
    [filteredNav] above is the instance at the mapping of the letters
    [A]..[Z]. *)
Module Js.
Section Search.

Variable toLowerCase : string -> string.

(** [item.summary?.toLowerCase().includes(q)] *)
Definition optIncludes (field : option string) (q : string) : bool :=
  match field with
  | Some s => includes (toLowerCase s) q
  | None => false
  end.

(** The [filteredNav] memo. *)
Definition filteredNav (navItems : list TypeItem) (query : string) : list TypeItem :=
  if String.eqb query "" then navItems
  else
    List.filter (fun item =>
      includes (toLowerCase (name (type item))) (toLowerCase query)
      || optIncludes (summary item) (toLowerCase query)
      || optIncludes (description item) (toLowerCase query)) navItems.

(** [q] occurs in [s] as a substring when the case of letters is
    disregarded, that is, once both are put in lower case: [s] in lower
    case can be cut before and after a copy of [q] in lower case. *)
Definition containsIgnoringCase (s q : string) : Prop :=
  exists before after : string,
    toLowerCase s = (before ++ toLowerCase q ++ after)%string.

Definition matchesQuery (item : TypeItem) (query : string) : Prop :=
  containsIgnoringCase (name (type item)) query
  \/ (exists s, summary item = Some s /\ containsIgnoringCase s query)
  \/ (exists d, description item = Some d /\ containsIgnoringCase d query).

End Search.
End Js.

(** ** Property reads on a plain object *)

(** The string-keyed members every plain object inherits from
    [Object.prototype]: reading one of these names from an object that has
    no entry of its own under it gives the inherited member, not
    [undefined]. *)
Definition objectPrototypeKeys : list string :=
  [ "constructor"; "hasOwnProperty"; "isPrototypeOf"; "propertyIsEnumerable";
    "toLocaleString"; "toString"; "valueOf"; "__proto__";
    "__defineGetter__"; "__defineSetter__"; "__lookupGetter__"; "__lookupSetter__" ].

(** The reads [usage[usageTab]] of the component never reach an inherited
    member: a tab without an entry of its own is not named like one. *)
Definition noInheritedTab (p : Props) : Prop :=
  forall tab, In tab (usageTabs p) -> usage p !! tab = None ->
              ~ In tab objectPrototypeKeys.

(** What the read [o[k]] of a plain object gives: the entry the object
    has of its own, else the member of that name inherited from
    [Object.prototype] (a function or an object, hence truthy, without
    [title], [code] or [text]), else [undefined]. *)
Inductive PropertyValue : Type :=
| OwnEntry (u : FnUsageItem)
| InheritedMember
| Undefined.

Definition propertyRead (o : gmap string FnUsageItem) (k : string) : PropertyValue :=
  match o !! k with
  | Some u => OwnEntry u
  | None =>
      if existsb (String.eqb k) objectPrototypeKeys then InheritedMember
      else Undefined
  end.
(** * Proofs *)

(** ** extractTypes *)

Lemma collected_no_children dec : children dec = None -> collected dec = [].
Proof. destruct dec; simpl; intros ->; reflexivity. Qed.

Lemma logged_no_children dec : children dec = None -> logged dec = [].
Proof. destruct dec; simpl; intros ->; reflexivity. Qed.

Lemma store_eq (σ1 σ2 : Store) :
  arrays σ1 = arrays σ2 -> console σ1 = console σ2 -> σ1 = σ2.
Proof. destruct σ1, σ2; simpl; intros -> ->; reflexivity. Qed.

(** A call that is handed an existing array appends [collected dec] to it
    and [logged dec] to the console, and touches nothing else. *)
Lemma extractTypes_into dec :
  forall types σ old,
    arrays σ !! types = Some old ->
    extractTypes dec (Some types) σ =
      (types, mkStore (<[types := old ++ collected dec]> (arrays σ))
                      (console σ ++ logged dec)).
Proof.
  induction dec using Reflection_nested_ind
    with (Q := fun _ => True); try exact I.
  intros types σ old Hold. simpl.
  destruct ch as [cs|]; simpl.
  2:{ f_equal. apply store_eq; simpl.
      - rewrite app_nil_r. symmetry. by apply insert_id.
      - by rewrite app_nil_r. }
  f_equal. simpl in H.
  revert σ old Hold.
  induction H as [|child rest Hchild _ IH]; intros σ old Hold.
  - simpl. apply store_eq; simpl.
    + rewrite app_nil_r. symmetry. by apply insert_id.
    + by rewrite app_nil_r.
  - cbn -[collected logged isIgnoredKind isTypeKind].
    destruct (isIgnoredKind (kindString child)) eqn:Hig.
    { rewrite (IH σ old Hold). reflexivity. }
    destruct (isTypeKind (kindString child)) eqn:Hty.
    { rewrite (IH (push types child σ) (old ++ [child])).
      - apply store_eq; simpl; [|reflexivity].
        rewrite insert_alter_eq. by rewrite <- app_assoc.
      - simpl. by rewrite lookup_alter_eq, Hold. }
    destruct (children child) eqn:Hch.
    + rewrite (Hchild types (consoleLog (kindString child) child σ) old Hold).
      simpl. rewrite (IH _ (old ++ collected child)).
      * apply store_eq; simpl.
        -- by rewrite insert_insert_eq, <- app_assoc.
        -- by rewrite <- !app_assoc.
      * simpl. apply lookup_insert_eq.
    + rewrite (collected_no_children _ Hch), (logged_no_children _ Hch).
      rewrite (IH (consoleLog (kindString child) child σ) old Hold).
      apply store_eq; simpl; [reflexivity|].
      by rewrite <- !app_assoc.
Qed.

(** The top-level call allocates its own array. *)
Lemma extractTypes_fresh dec σ :
  extractTypes dec None σ =
    (fresh (dom (arrays σ)),
     mkStore (<[fresh (dom (arrays σ)) := collected dec]> (arrays σ))
             (console σ ++ logged dec)).
Proof.
  transitivity (extractTypes dec (Some (fresh (dom (arrays σ)))) (snd (newArray σ))).
  { destruct dec as [i n k ch sg tp tps ty]. reflexivity. }
  rewrite (extractTypes_into dec _ _ []).
  - simpl. by rewrite insert_insert_eq.
  - simpl. apply lookup_insert_eq.
Qed.

Lemma ignored_not_type k : isIgnoredKind k = true -> isTypeKind k = false.
Proof.
  destruct k as [s|]; simpl; [|discriminate].
  intros [H|H]%orb_true_iff; apply String.eqb_eq in H; subst; reflexivity.
Qed.

Lemma kindString_setChildren r cs : kindString (setChildren r cs) = kindString r.
Proof. destruct r; reflexivity. Qed.

Lemma kindString_replaceIgnored g r : kindString (replaceIgnored g r) = kindString r.
Proof.
  destruct r as [i n k ch sg tp tps ty]; destruct ch; reflexivity.
Qed.

Lemma collected_eq dec :
  collected dec =
    match children dec with
    | None => []
    | Some cs =>
        flat_map (fun child =>
          if isIgnoredKind (kindString child) then []
          else if isTypeKind (kindString child) then [child]
          else collected child) cs
    end.
Proof. destruct dec; reflexivity. Qed.

Lemma descendants_eq dec :
  descendants dec =
    match children dec with
    | None => []
    | Some cs => flat_map (fun child => child :: descendants child) cs
    end.
Proof. destruct dec; reflexivity. Qed.

Lemma typesOnlyUnderWrappers_eq dec :
  typesOnlyUnderWrappers dec =
    match children dec with
    | None => true
    | Some cs =>
        forallb (fun child =>
          if isIgnoredKind (kindString child) || isTypeKind (kindString child)
          then forallb (fun r => negb (isType r)) (descendants child)
          else typesOnlyUnderWrappers child) cs
    end.
Proof. destruct dec; reflexivity. Qed.

Lemma replaceIgnored_eq g dec :
  replaceIgnored g dec =
    match children dec with
    | None => dec
    | Some cs =>
        setChildren dec
          (Some (map (fun child =>
             if isIgnoredKind (kindString child) then setChildren child (g child)
             else if isTypeKind (kindString child) then child
             else replaceIgnored g child) cs))
    end.
Proof. destruct dec; reflexivity. Qed.

Lemma filter_none {A} (p : A -> bool) l :
  forallb (fun x => negb (p x)) l = true -> List.filter p l = [].
Proof.
  induction l as [|x l IH]; simpl; [reflexivity|].
  intros [Hx Hl]%andb_true_iff. apply negb_true_iff in Hx. rewrite Hx. auto.
Qed.

(** Only Interface and Type alias nodes are ever pushed. *)
Lemma collected_only_types dec : Forall (fun r => isType r = true) (collected dec).
Proof.
  induction dec using Reflection_nested_ind with (Q := fun _ => True); try exact I.
  rewrite collected_eq; simpl. destruct ch as [cs|]; [|constructor].
  simpl in H. induction H as [|c rest Hc _ IH]; simpl; [constructor|].
  apply Forall_app. split; [|exact IH].
  destruct (isIgnoredKind (kindString c)); [constructor|].
  destruct (isTypeKind (kindString c)) eqn:E; [|exact Hc].
  constructor; [exact E|constructor].
Qed.

(** On a well-nested tree the walk finds every Interface and Type alias,
    in document order. *)
Lemma collected_exact dec :
  typesOnlyUnderWrappers dec = true ->
  collected dec = List.filter isType (descendants dec).
Proof.
  induction dec using Reflection_nested_ind with (Q := fun _ => True); try exact I.
  rewrite collected_eq, descendants_eq, typesOnlyUnderWrappers_eq; simpl.
  destruct ch as [cs|]; [|reflexivity].
  simpl in H. induction H as [|c rest Hc _ IH]; [reflexivity|].
  cbn [flat_map forallb]. intros [Hhere Hrest]%andb_true_iff.
  change (c :: descendants c ++ ?l) with ((c :: descendants c) ++ l).
  rewrite List.filter_app, (IH Hrest). f_equal.
  cbn [List.filter]. unfold isType at 1.
  destruct (isIgnoredKind (kindString c)) eqn:Hig; simpl in Hhere.
  - rewrite (ignored_not_type _ Hig). symmetry. by apply filter_none.
  - destruct (isTypeKind (kindString c)) eqn:Hty.
    + f_equal. symmetry. by apply filter_none.
    + by apply Hc.
Qed.

(** The walk never looks below a Module or a Function. *)
Lemma collected_replaceIgnored g dec :
  collected (replaceIgnored g dec) = collected dec.
Proof.
  induction dec using Reflection_nested_ind with (Q := fun _ => True); try exact I.
  rewrite replaceIgnored_eq. simpl. destruct ch as [cs|]; [|reflexivity].
  rewrite !collected_eq; simpl.
  simpl in H. induction H as [|c rest Hc _ IH]; simpl; [reflexivity|].
  rewrite IH. f_equal.
  destruct (isIgnoredKind (kindString c)) eqn:Hig.
  - by rewrite kindString_setChildren, Hig.
  - destruct (isTypeKind (kindString c)) eqn:Hty.
    + by rewrite Hig, Hty.
    + by rewrite kindString_replaceIgnored, Hig, Hty.
Qed.

Lemma logged_eq dec :
  logged dec =
    match children dec with
    | None => []
    | Some cs =>
        flat_map (fun child =>
          if isIgnoredKind (kindString child) then []
          else if isTypeKind (kindString child) then []
          else (kindString child, child) :: logged child) cs
    end.
Proof. destruct dec; reflexivity. Qed.

(** Nor does it report anything from there: the kinds written to the
    console are the same. *)
Lemma logged_replaceIgnored g dec :
  map fst (logged (replaceIgnored g dec)) = map fst (logged dec).
Proof.
  induction dec using Reflection_nested_ind with (Q := fun _ => True); try exact I.
  rewrite replaceIgnored_eq. simpl. destruct ch as [cs|]; [|reflexivity].
  rewrite !logged_eq; simpl.
  simpl in H. induction H as [|c rest Hc _ IH]; simpl; [reflexivity|].
  rewrite !map_app, IH. f_equal.
  destruct (isIgnoredKind (kindString c)) eqn:Hig.
  - by rewrite kindString_setChildren, Hig.
  - destruct (isTypeKind (kindString c)) eqn:Hty.
    + by rewrite Hig, Hty.
    + rewrite kindString_replaceIgnored, Hig, Hty. simpl. by rewrite Hc.
Qed.

(** ** buildParentTypesMap *)

(** Induction along the calls of [buildParentTypesMap]: from a node to
    its type expression, from an inline declaration to its signatures. *)
Lemma visit_ind (P : Reflection -> Prop) (Q : SomeType -> Prop) :
  (forall cur, OptP Q (type_ cur) -> P cur) ->
  (forall d, OptP (fun decl => OptP (Forall P) (signatures decl)) d ->
             Q (ReflectionType d)) ->
  (forall parts, Forall Q parts -> Q (OtherType parts)) ->
  (forall cur, P cur) /\ (forall t, Q t).
Proof.
  intros HP HQr HQo.
  assert (Hboth : forall r, P r /\ OptP (Forall P) (signatures r)).
  { induction r using Reflection_nested_ind with (Q := Q).
    - split.
      + apply HP. exact H3.
      + cbn [signatures]. destruct sg as [sigs|]; [|exact I].
        cbn [OptP] in *. eapply Forall_impl; [exact H0|]. intros s Hs. apply Hs.
    - apply HQr. destruct d as [decl|]; [|exact I]. apply H.
    - apply HQo. exact H. }
  split; [intros cur; apply Hboth|].
  induction t using SomeType_nested_ind with (P := fun _ => True); try exact I.
  - apply HQr. destruct d as [decl|]; [|exact I]. apply Hboth.
  - apply HQo. exact H.
Qed.

Lemma classic_In_id (l : list Reflection) (k : Z) :
  (exists ref, In ref l /\ id ref = k) \/ (forall ref, In ref l -> id ref <> k).
Proof.
  induction l as [|x l [[r [Hr Hk]]|IH]].
  - right. intros ref [].
  - left. exists r. split; [by right|done].
  - destruct (Z.eq_dec (id x) k) as [E|E].
    + left. exists x. split; [by left|done].
    + right. intros ref [<-|Hin]; [done|by apply IH].
Qed.

Section ParentTypesFacts.

(** The tag function, [inlineTypeHash] in the source. *)
Variable tag : Reflection -> Reflection -> string.

Lemma visit_eq refl type map :
  visit tag refl type map =
    match type_ type with
    | Some t => walk tag refl t (registerParams tag refl type map)
    | None => registerParams tag refl type map
    end.
Proof. destruct type; reflexivity. Qed.

(** [walk] is [traverseType] run with the callback of the source. *)
Lemma walk_traverseType refl t :
  forall map,
    walk tag refl t map =
      fold_left (fun m ref => onReflection tag refl ref m) (traverseType t) map.
Proof.
  induction t using SomeType_nested_ind with (P := fun _ => True); try exact I.
  - intros map. destruct d as [declaration|]; reflexivity.
  - intros map. cbn [traverseType fold_left walk onReflection].
    revert map. induction H as [|p rest Hp _ IH]; intros map; [reflexivity|].
    cbn [flat_map fold_left]. rewrite fold_left_app, <- Hp. apply IH.
Qed.

Lemma fold_left_id {A B} (f : A -> B -> A) (l : list B) (a : A) :
  Forall (fun x => forall a, f a x = a) l -> fold_left f l a = a.
Proof.
  induction 1 as [|x l Hx _ IH]; [reflexivity|]. cbn [fold_left].
  by rewrite Hx.
Qed.

Lemma fold_left_ext_in {A B} (f g : A -> B -> A) (l : list B) :
  Forall (fun x => forall a, f a x = g a x) l ->
  forall a, fold_left f l a = fold_left g l a.
Proof.
  induction 1 as [|x l Hx _ IH]; intros a; [reflexivity|]. cbn [fold_left].
  by rewrite Hx, IH.
Qed.

Lemma fold_left_flat_map {A B C} (f : A -> C -> A) (g : B -> list C) (l : list B) :
  forall a,
    fold_left f (flat_map g l) a =
    fold_left (fun a x => fold_left f (g x) a) l a.
Proof.
  induction l as [|x l IH]; intros a; [reflexivity|].
  cbn [flat_map fold_left]. by rewrite fold_left_app, IH.
Qed.

(** The recursion equation of [buildParentTypesMap], in the shape of the
    source: register the parameters of [type], then run [traverseType] on
    [type.type] and call [buildParentTypesMap(refl, signature, map)] for
    every signature of every inline declaration it meets. *)
Lemma buildParentTypesMap_unfold refl cur accMap :
  buildParentTypesMap tag refl (Some cur) (Some accMap) =
    let map := registerParams tag refl cur accMap in
    match type_ cur with
    | Some t =>
        fold_left (fun m ref =>
          match ref with
          | ReflectionType (Some declaration) =>
              match signatures declaration with
              | Some sigs =>
                  fold_left (fun m signature =>
                    buildParentTypesMap tag refl (Some signature) (Some m)) sigs m
              | None => m
              end
          | _ => m
          end) (traverseType t) map
    | None => map
    end.
Proof.
  cbn [buildParentTypesMap]. rewrite visit_eq. cbv zeta.
  destruct (type_ cur) as [t|]; [|reflexivity].
  rewrite walk_traverseType. reflexivity.
Qed.

(** Without a focal node nothing is ever registered. *)
Lemma visit_absent :
  (forall cur map, visit tag None cur map = map) /\
  (forall t map, walk tag None t map = map).
Proof.
  apply visit_ind.
  - intros cur IH map. rewrite visit_eq. cbn [registerParams].
    destruct (type_ cur) as [t|]; [apply IH|reflexivity].
  - intros d IH map. destruct d as [decl|]; [|reflexivity].
    cbn [walk]. cbn [OptP] in IH.
    destruct (signatures decl) as [sigs|]; [|reflexivity].
    apply fold_left_id. eapply Forall_impl; [exact IH|]. intros s Hs a. apply Hs.
  - intros parts IH map. cbn [walk]. apply fold_left_id.
    eapply Forall_impl; [exact IH|]. intros s Hs a. apply Hs.
Qed.

Section Focal.

Variable focal : Reflection.

Lemma registerParams_paramsOf cur map :
  registerParams tag (Some focal) cur map = fold_left (register tag focal) (paramsOf cur) map.
Proof.
  unfold registerParams, paramsOf. destruct (declaredParams cur); reflexivity.
Qed.

Lemma registered_eq cur :
  registered cur =
    paramsOf cur ++
    match type_ cur with Some t => registeredIn t | None => [] end.
Proof. destruct cur; reflexivity. Qed.

(** The map a visit leaves is the map it found with the registered
    parameters written to it one after the other. *)
Lemma visit_registered :
  (forall cur map,
      visit tag (Some focal) cur map = fold_left (register tag focal) (registered cur) map) /\
  (forall t map,
      walk tag (Some focal) t map = fold_left (register tag focal) (registeredIn t) map).
Proof.
  apply visit_ind.
  - intros cur IH map. rewrite visit_eq, registered_eq, fold_left_app.
    rewrite registerParams_paramsOf.
    destruct (type_ cur) as [t|]; [apply IH|reflexivity].
  - intros d IH map. destruct d as [decl|]; [|reflexivity].
    cbn [walk registeredIn]. cbn [OptP] in IH.
    destruct (signatures decl) as [sigs|]; [|reflexivity].
    rewrite fold_left_flat_map. apply fold_left_ext_in.
    eapply Forall_impl; [exact IH|]. intros s Hs a. apply Hs.
  - intros parts IH map. cbn [walk registeredIn].
    rewrite fold_left_flat_map. apply fold_left_ext_in.
    eapply Forall_impl; [exact IH|]. intros s Hs a. apply Hs.
Qed.

(** Reading the map after a run of registrations. *)
Lemma lookup_fold_register_miss (l : list Reflection) (m : gmap Z string) k :
  (forall ref, In ref l -> id ref <> k) ->
  fold_left (register tag focal) l m !! k = m !! k.
Proof.
  revert m. induction l as [|x l IH]; intros m Hk; [reflexivity|].
  cbn [fold_left]. rewrite IH by (intros; apply Hk; by right).
  unfold register. apply lookup_insert_ne. apply Hk. by left.
Qed.

Lemma lookup_fold_register_hit (l : list Reflection) (m : gmap Z string) k v :
  (exists ref, In ref l /\ id ref = k) ->
  (forall ref, In ref l -> id ref = k -> tag focal ref = v) ->
  fold_left (register tag focal) l m !! k = Some v.
Proof.
  revert m. induction l as [|x l IH]; intros m [ref [Hin Hid]] Hv.
  { destruct Hin. }
  cbn [fold_left].
  destruct (classic_In_id l k) as [Hl|Hl].
  - apply IH; [exact Hl|]. intros r Hr. apply Hv. by right.
  - rewrite lookup_fold_register_miss by exact Hl.
    destruct Hin as [->|Hin]; [|exfalso; by apply (Hl ref)].
    unfold register. rewrite Hid, <- (Hv ref) by (by left || done).
    rewrite <- Hid. apply lookup_insert_eq.
Qed.

End Focal.

End ParentTypesFacts.

(** *** Registered parameters, level by level *)

Lemma flat_map_nested {A B C} (f : B -> list C) (g : A -> list B) (l : list A) :
  flat_map f (flat_map g l) = flat_map (fun x => flat_map f (g x)) l.
Proof.
  induction l as [|x l IH]; [reflexivity|].
  cbn [flat_map]. by rewrite flat_map_app, IH.
Qed.

Lemma flat_map_ext_Forall {A B} (f g : A -> list B) (l : list A) :
  Forall (fun x => f x = g x) l -> flat_map f l = flat_map g l.
Proof.
  induction 1 as [|x l Hx _ IH]; [reflexivity|].
  cbn [flat_map]. by rewrite Hx, IH.
Qed.

Lemma registeredIn_signatures t :
  registeredIn t = flat_map registered (flat_map signaturesOf (traverseType t)).
Proof.
  induction t using SomeType_nested_ind with (P := fun _ => True); try exact I.
  - destruct d as [decl|]; [|reflexivity].
    cbn [registeredIn traverseType flat_map signaturesOf].
    rewrite app_nil_r. destruct (signatures decl); reflexivity.
  - cbn [registeredIn traverseType flat_map signaturesOf app].
    rewrite (flat_map_nested signaturesOf), (flat_map_nested registered).
    apply flat_map_ext_Forall. eapply Forall_impl; [exact H|].
    intros part ->. by rewrite flat_map_nested.
Qed.

Lemma registered_levels_eq cur :
  registered cur = paramsOf cur ++ flat_map registered (inlineSignatures cur).
Proof.
  rewrite registered_eq. unfold inlineSignatures.
  destruct (type_ cur) as [t|]; [|reflexivity].
  by rewrite registeredIn_signatures.
Qed.

(** A parameter met at some level is a registered one ... *)
Lemma level_registered n :
  forall cur s ref,
    In s (levelAt n cur) -> In ref (paramsOf s) -> In ref (registered cur).
Proof.
  induction n as [|n IH]; intros cur s ref Hs Href.
  - destruct Hs as [<-|[]]. rewrite registered_levels_eq.
    apply in_or_app. by left.
  - cbn [levelAt] in Hs. apply in_flat_map in Hs as [sig [Hsig Hs]].
    rewrite registered_levels_eq. apply in_or_app. right.
    apply in_flat_map. exists sig. split; [exact Hsig|].
    by apply (IH sig s).
Qed.

(** ... and every registered parameter is met at some level. *)
Lemma registered_level_walk :
  (forall cur ref,
      In ref (registered cur) ->
      exists n s, In s (levelAt n cur) /\ In ref (paramsOf s)) /\
  (forall t ref,
      In ref (registeredIn t) ->
      exists sig, In sig (flat_map signaturesOf (traverseType t)) /\
      exists n s, In s (levelAt n sig) /\ In ref (paramsOf s)).
Proof.
  apply visit_ind.
  - intros cur IH ref Href. rewrite registered_eq in Href.
    apply in_app_or in Href as [Href|Href].
    + exists O, cur. split; [by left|exact Href].
    + destruct (type_ cur) as [t|] eqn:Et; [|destruct Href].
      destruct (IH ref Href) as [sig [Hsig [n [s [Hs Hp]]]]].
      exists (S n), s. split; [|exact Hp].
      cbn [levelAt]. apply in_flat_map. exists sig. split; [|exact Hs].
      unfold inlineSignatures. by rewrite Et.
  - intros d IH ref Href. destruct d as [decl|]; [|destruct Href].
    cbn [registeredIn] in Href. cbn [OptP] in IH.
    cbn [traverseType flat_map signaturesOf]. rewrite app_nil_r.
    destruct (signatures decl) as [sigs|]; [|destruct Href].
    apply in_flat_map in Href as [sig [Hsig Href]].
    exists sig. split; [exact Hsig|].
    cbn [OptP] in IH. rewrite Forall_forall in IH. apply IH; [|exact Href].
    by apply list_elem_of_In.
  - intros parts IH ref Href. cbn [registeredIn] in Href.
    apply in_flat_map in Href as [part [Hpart Href]].
    rewrite Forall_forall in IH.
    destruct (IH part (proj2 (list_elem_of_In _ _) Hpart) ref Href)
      as [sig [Hsig Hrest]].
    exists sig. split; [|exact Hrest].
    cbn [traverseType flat_map signaturesOf app].
    rewrite flat_map_nested. apply in_flat_map. exists part. by split.
Qed.

Lemma registered_level cur ref :
  In ref (registered cur) ->
  exists n s, In s (levelAt n cur) /\ In ref (paramsOf s).
Proof. apply registered_level_walk. Qed.

(** What the finished map holds for a parameter whose id is its own. *)
Lemma buildParentTypesMap_lookup tag focal ref :
  In ref (registered focal) ->
  (forall other, In other (registered focal) -> id other = id ref -> other = ref) ->
  buildParentTypesMap tag (Some focal) None None !! id ref = Some (tag focal ref).
Proof.
  intros Hin Huniq. cbn [buildParentTypesMap].
  rewrite (proj1 (visit_registered tag focal)).
  apply lookup_fold_register_hit.
  - exists ref. by split.
  - intros other Hother Hid. by rewrite (Huniq other Hother Hid).
Qed.

Lemma lookup_fold_register_is_Some tag focal (l : list Reflection) k :
  forall m : gmap Z string,
    (exists ref, In ref l /\ id ref = k) ->
    exists v, fold_left (register tag focal) l m !! k = Some v.
Proof.
  induction l as [|x l IH]; intros m [ref [Hin Hid]]; [destruct Hin|].
  cbn [fold_left].
  destruct (classic_In_id l k) as [Hl|Hl]; [by apply IH|].
  rewrite lookup_fold_register_miss by exact Hl.
  destruct Hin as [->|Hin]; [|exfalso; by apply (Hl ref)].
  unfold register. rewrite Hid. eexists. apply lookup_insert_eq.
Qed.

Lemma buildParentTypesMap_is_Some tag focal ref :
  In ref (registered focal) ->
  exists v, buildParentTypesMap tag (Some focal) None None !! id ref = Some v.
Proof.
  intros Hin. cbn [buildParentTypesMap].
  rewrite (proj1 (visit_registered tag focal)).
  apply lookup_fold_register_is_Some. exists ref. by split.
Qed.

(** * The properties of the specification *)

(** ** extractTypes *)

(** C1. On a tree whose Interface and Type alias nodes all sit directly
    under the root or under wrappers of unrecognised kind only,
    [extractTypes] returns an array holding exactly those nodes, in
    document (pre-)order; every node in it is an Interface or a Type
    alias; and whatever is put below the Modules and Functions of the tree,
    the same array content and the same console report come back: their
    subtrees are neither visited nor returned. *)
Theorem extractTypes_exact (dec : Reflection) (σ : Store) :
  typesOnlyUnderWrappers dec = true ->
  exists types σ' result,
    extractTypes dec None σ = (types, σ') /\
    arrays σ' !! types = Some result /\
    result = List.filter isType (descendants dec) /\
    Forall (fun r => isType r = true) result /\
    forall g, exists types' σ'',
      extractTypes (replaceIgnored g dec) None σ = (types', σ'') /\
      arrays σ'' !! types' = Some result /\
      map fst (console σ'') = map fst (console σ').
Proof.
  intros Hwf.
  exists (fresh (dom (arrays σ))), (snd (extractTypes dec None σ)), (collected dec).
  rewrite extractTypes_fresh. cbn [snd arrays console].
  split; [reflexivity|]. split; [apply lookup_insert_eq|].
  split; [by apply collected_exact|]. split; [apply collected_only_types|].
  intros g. eexists _, _. rewrite extractTypes_fresh. split; [reflexivity|].
  cbn [arrays console]. rewrite collected_replaceIgnored. split; [apply lookup_insert_eq|].
  by rewrite !map_app, logged_replaceIgnored.
Qed.

Lemma extractTypes_exact_witness :
  typesOnlyUnderWrappers sampleProject = true /\
  exists types σ' result,
    extractTypes sampleProject None emptyStore = (types, σ') /\
    arrays σ' !! types = Some result /\
    result = List.filter isType (descendants sampleProject) /\
    Forall (fun r => isType r = true) result /\
    forall g, exists types' σ'',
      extractTypes (replaceIgnored g sampleProject) None emptyStore = (types', σ'') /\
      arrays σ'' !! types' = Some result /\
      map fst (console σ'') = map fst (console σ').
Proof.
  split; [reflexivity|].
  apply (extractTypes_exact sampleProject emptyStore); reflexivity.
Defined.

(** C10. Calling [extractTypes] twice on the same tree gives two arrays
    with the same content.  They are different arrays, the second call
    leaves the first result as it was, and neither call writes to any
    array that existed before it; the tree, which the function only
    reads, is the same value throughout. *)
Theorem extractTypes_idempotent (dec : Reflection) (σ : Store) :
  exists first σ1 second σ2 result,
    extractTypes dec None σ = (first, σ1) /\
    extractTypes dec None σ1 = (second, σ2) /\
    arrays σ1 !! first = Some result /\
    arrays σ2 !! second = Some result /\
    arrays σ2 !! first = Some result /\
    first <> second /\
    (forall l, l <> first -> arrays σ1 !! l = arrays σ !! l) /\
    (forall l, l <> second -> arrays σ2 !! l = arrays σ1 !! l).
Proof.
  set (first := fresh (dom (arrays σ))).
  set (σ1 := mkStore (<[first := collected dec]> (arrays σ)) (console σ ++ logged dec)).
  set (second := fresh (dom (arrays σ1))).
  exists first, σ1, second,
    (mkStore (<[second := collected dec]> (arrays σ1)) (console σ1 ++ logged dec)),
    (collected dec).
  assert (Hne : first <> second).
  { intros E. apply (is_fresh (dom (arrays σ1))). fold second. rewrite <- E.
    apply elem_of_dom. eexists. apply lookup_insert_eq. }
  split; [apply extractTypes_fresh|]. split; [apply extractTypes_fresh|].
  cbn [arrays]. split; [apply lookup_insert_eq|]. split; [apply lookup_insert_eq|].
  split. { rewrite lookup_insert_ne by done. apply lookup_insert_eq. }
  split; [exact Hne|].
  split; intros l Hl; unfold σ1; cbn [arrays]; by rewrite lookup_insert_ne.
Qed.

(** ** buildParentTypesMap *)

(** C9. Without a focal node [buildParentTypesMap] returns the empty map;
    it is a total function, so there is no error to signal.  This holds
    for the call [buildParentTypesMap(undefined)] and whatever is passed
    as [type]. *)
Theorem buildParentTypesMap_absent (tag : Reflection -> Reflection -> string) :
  buildParentTypesMap tag None None None = ∅ /\
  forall type, buildParentTypesMap tag None type None = ∅.
Proof.
  split; [reflexivity|]. intros [cur|]; [|reflexivity].
  cbn [buildParentTypesMap]. apply visit_absent.
Qed.

(** C2. A type parameter [Q] declared by a call signature found in an
    inline declaration of the focal node's type, however deep (level
    [S n], whatever [n]), is mapped to the tag computed from the focal
    node and [Q], ids being unique among the parameters met. *)
Theorem buildParentTypesMap_anchored_to_focal
    (tag : Reflection -> Reflection -> string)
    (focal signature Q : Reflection) (n : nat) :
  In signature (levelAt (S n) focal) ->
  In Q (paramsOf signature) ->
  (forall m s P, In s (levelAt m focal) -> In P (paramsOf s) ->
                 id P = id Q -> P = Q) ->
  buildParentTypesMap tag (Some focal) None None !! id Q = Some (tag focal Q).
Proof.
  intros Hsig HQ Huniq. apply buildParentTypesMap_lookup.
  - by apply (level_registered (S n) focal signature).
  - intros other Hother Hid.
    destruct (registered_level _ _ Hother) as [m [s [Hs HP]]].
    by apply (Huniq m s).
Qed.

Lemma sampleMapper_unique_ids (Q : Reflection) :
  In Q (registered sampleMapper) ->
  forall m s P, In s (levelAt m sampleMapper) -> In P (paramsOf s) ->
                id P = id Q -> P = Q.
Proof.
  intros HQ m s P Hs HP Hid.
  pose proof (level_registered m sampleMapper s P Hs HP) as Hin.
  cbv in HQ, Hin.
  destruct HQ as [<-|[<-|[]]], Hin as [<-|[<-|[]]];
    first [reflexivity | discriminate Hid].
Qed.

Lemma buildParentTypesMap_anchored_to_focal_witness :
  buildParentTypesMap sampleHash (Some sampleMapper) None None !! 12
  = Some "Mapper/U".
Proof.
  apply (buildParentTypesMap_anchored_to_focal sampleHash
           sampleMapper sampleSignature sampleQ 0).
  - cbv. left. reflexivity.
  - cbv. left. reflexivity.
  - apply sampleMapper_unique_ids. cbv. right. left. reflexivity.
Defined.

Lemma paramsUnderEither_paramsOf cur :
  typeParameter cur = None \/ typeParameters cur = None ->
  paramsUnderEither cur = paramsOf cur.
Proof.
  unfold paramsUnderEither, paramsOf, declaredParams.
  intros [-> | ->]; [reflexivity|].
  destruct (typeParameter cur); [apply app_nil_r|reflexivity].
Qed.

(** C4. At every visit level (the node [cur] met at any level [n] below
    the focal node), a parameter found under [typeParameter] or under
    [typeParameters] (the metadata fills one of the two names) is
    registered: the registration step of that level writes, and the
    finished map holds, the tag computed from the focal node and the
    parameter under the parameter's id, ids being unique among the
    parameters met. *)
Theorem buildParentTypesMap_registers_either_field
    (tag : Reflection -> Reflection -> string)
    (focal cur Q : Reflection) (n : nat) :
  In cur (levelAt n focal) ->
  typeParameter cur = None \/ typeParameters cur = None ->
  In Q (paramsUnderEither cur) ->
  (forall m s P, In s (levelAt m focal) -> In P (paramsOf s) ->
                 id P = id Q -> P = Q) ->
  (forall map, registerParams tag (Some focal) cur map !! id Q = Some (tag focal Q)) /\
  buildParentTypesMap tag (Some focal) None None !! id Q = Some (tag focal Q).
Proof.
  intros Hcur Hone HQ Huniq. rewrite (paramsUnderEither_paramsOf _ Hone) in HQ.
  split.
  - intros map. rewrite registerParams_paramsOf.
    apply lookup_fold_register_hit.
    + exists Q. by split.
    + intros ref Href Hid. by rewrite (Huniq n cur ref Hcur Href Hid).
  - apply buildParentTypesMap_lookup.
    + by apply (level_registered n focal cur).
    + intros other Hother Hid.
      destruct (registered_level _ _ Hother) as [m [s [Hs HP]]].
      by apply (Huniq m s).
Qed.

Lemma buildParentTypesMap_registers_either_field_witness :
  (forall map, registerParams sampleHash (Some sampleMapper) sampleMapper map !! 11
               = Some "Mapper/T") /\
  buildParentTypesMap sampleHash (Some sampleMapper) None None !! 11
  = Some "Mapper/T".
Proof.
  apply (buildParentTypesMap_registers_either_field sampleHash
           sampleMapper sampleMapper sampleP 0).
  - cbv. left. reflexivity.
  - left. reflexivity.
  - cbv. left. reflexivity.
  - apply sampleMapper_unique_ids. cbv. left. reflexivity.
Defined.

(** When a node carries both names, [typeParameter] (even empty) hides
    [typeParameters]. *)
Example registerParams_first_name_wins :
  buildParentTypesMap sampleHash (Some sampleBoth) None None !! 11 = None.
Proof. reflexivity. Qed.

(** *** No bound on the depth *)

Lemma registeredIn_nestedFn k :
  forall d,
    registeredIn (nestedFn d k) =
    map (fun i => typeParam (Z.of_nat (d + i))) (seq 1 k).
Proof.
  induction k as [|k IH]; intros d; [reflexivity|].
  cbn [nestedFn registeredIn signatures flat_map]. rewrite app_nil_r.
  rewrite registered_eq. cbn [type_]. rewrite IH.
  cbn [paramsOf declaredParams typeParameter app seq map].
  unfold paramsOf, declaredParams. cbn [typeParameter app].
  f_equal; [f_equal; f_equal; lia|].
  rewrite <- (seq_shift k 1), map_map. apply map_ext. intros i. do 2 f_equal. lia.
Qed.

Lemma registered_deepAlias n :
  registered (deepAlias n) = map (fun i => typeParam (Z.of_nat i)) (seq 1 n).
Proof.
  rewrite registered_eq. cbn [deepAlias type_]. unfold paramsOf. cbn [app].
  apply registeredIn_nestedFn.
Qed.

Lemma buildParentTypesMap_deepAlias tag n k :
  (1 <= k <= n)%nat ->
  buildParentTypesMap tag (Some (deepAlias n)) None None !! Z.of_nat k
  = Some (tag (deepAlias n) (typeParam (Z.of_nat k))).
Proof.
  intros Hk.
  apply (buildParentTypesMap_lookup tag (deepAlias n) (typeParam (Z.of_nat k))).
  - rewrite registered_deepAlias. apply in_map_iff. exists k.
    split; [reflexivity|]. apply in_seq. lia.
  - intros other. rewrite registered_deepAlias.
    intros [i [<- _]]%in_map_iff. cbn [id typeParam]. by intros ->.
Qed.

(** C3, as stated, fails: nothing stops the walk at depth 64 or at any
    other depth.  The parameter declared 65 inline functions deep is in
    the map that comes back, and no bound [cap] makes the entries beyond
    it go missing. *)
Lemma buildParentTypesMap_has_no_depth_cap :
  buildParentTypesMap sampleHash (Some (deepAlias 65)) None None !! 65
    = Some "Deep/T" /\
  ~ exists cap : nat, forall n : nat, (cap < n)%nat ->
      buildParentTypesMap sampleHash (Some (deepAlias n)) None None !! Z.of_nat n
      = None.
Proof.
  split; [vm_compute; reflexivity|].
  intros [cap Hcap]. specialize (Hcap (S cap) (Nat.lt_succ_diag_r cap)).
  rewrite buildParentTypesMap_deepAlias in Hcap by lia. discriminate Hcap.
Qed.

(** C3, amended. [buildParentTypesMap] puts no bound on the depth of its
    walk: the parameters declared by a node met at any level [n] below
    the focal node all have an entry in the map that is returned.  The
    walk ends because the type expression is finite. *)
Theorem buildParentTypesMap_registers_at_any_depth
    (tag : Reflection -> Reflection -> string)
    (focal cur Q : Reflection) (n : nat) :
  In cur (levelAt n focal) ->
  In Q (paramsOf cur) ->
  exists v, buildParentTypesMap tag (Some focal) None None !! id Q = Some v.
Proof.
  intros Hcur HQ. apply buildParentTypesMap_is_Some.
  by apply (level_registered n focal cur).
Qed.

Lemma buildParentTypesMap_registers_at_any_depth_witness :
  In (deepSignature 65 0) (levelAt 65 (deepAlias 65)) /\
  exists v, buildParentTypesMap sampleHash (Some (deepAlias 65)) None None !! 65
            = Some v.
Proof.
  assert (H : In (deepSignature 65 0) (levelAt 65 (deepAlias 65))).
  { vm_compute. left. reflexivity. }
  split; [exact H|].
  apply (buildParentTypesMap_registers_at_any_depth sampleHash
           (deepAlias 65) (deepSignature 65 0) (typeParam 65) 65 H).
  vm_compute. left. reflexivity.
Defined.

(** ** The search filter *)

Local Open Scope string_scope.

Lemma nat_of_ascii_inj a b : nat_of_ascii a = nat_of_ascii b -> a = b.
Proof.
  intros H. rewrite <- (ascii_nat_embedding a), <- (ascii_nat_embedding b).
  by rewrite H.
Qed.

Lemma isUpper_range c :
  isUpper c = true <-> (65 <= nat_of_ascii c <= 90)%nat.
Proof.
  unfold isUpper. rewrite andb_true_iff, !Nat.leb_le. tauto.
Qed.

Lemma nat_of_lowerChar c :
  nat_of_ascii (lowerChar c) =
  if isUpper c then (nat_of_ascii c + 32)%nat else nat_of_ascii c.
Proof.
  unfold lowerChar. destruct (isUpper c) eqn:E; [|reflexivity].
  apply isUpper_range in E. apply nat_ascii_embedding. lia.
Qed.

(** The code compares lower-cased characters; that is the same as
    comparing letters up to case. *)
Lemma sameUpToCase_lowerChar a b :
  sameUpToCase a b <-> lowerChar a = lowerChar b.
Proof.
  unfold sameUpToCase. split.
  - intros [->|[[Ha Hb]|[Hb Ha]]]; [reflexivity| |];
      apply nat_of_ascii_inj; rewrite !nat_of_lowerChar.
    + rewrite Ha. apply isUpper_range in Ha.
      destruct (isUpper b) eqn:E; [apply isUpper_range in E; lia|lia].
    + rewrite Hb. apply isUpper_range in Hb.
      destruct (isUpper a) eqn:E; [apply isUpper_range in E; lia|lia].
  - intros H. apply (f_equal nat_of_ascii) in H. rewrite !nat_of_lowerChar in H.
    destruct (isUpper a) eqn:Ea, (isUpper b) eqn:Eb.
    + left. apply nat_of_ascii_inj. lia.
    + right. left. split; [reflexivity|lia].
    + right. right. split; [reflexivity|lia].
    + left. by apply nat_of_ascii_inj.
Qed.

Lemma equalUpToCase_toLowerCase s :
  forall q, equalUpToCase s q <-> toLowerCase s = toLowerCase q.
Proof.
  induction s as [|a s IH]; intros [|b q]; cbn [equalUpToCase toLowerCase].
  - tauto.
  - split; [tauto|discriminate].
  - split; [tauto|discriminate].
  - rewrite sameUpToCase_lowerChar, IH. split.
    + by intros [-> ->].
    + intros H. by injection H.
Qed.

Lemma append_cons a s t : String a s ++ t = String a (s ++ t).
Proof. reflexivity. Qed.

Lemma append_empty t : "" ++ t = t.
Proof. reflexivity. Qed.

Lemma toLowerCase_append s t :
  toLowerCase (s ++ t) = toLowerCase s ++ toLowerCase t.
Proof.
  induction s as [|a s IH]; [reflexivity|].
  rewrite append_cons. cbn [toLowerCase]. by rewrite IH, append_cons.
Qed.

Lemma toLowerCase_split s :
  forall x y,
    toLowerCase s = x ++ y ->
    exists s1 s2, s = s1 ++ s2 /\ toLowerCase s1 = x /\ toLowerCase s2 = y.
Proof.
  induction s as [|a s IH]; intros x y H.
  - destruct x; [|discriminate H]. rewrite append_empty in H.
    exists "", "". by subst.
  - destruct x as [|c x].
    + exists "", (String a s). by rewrite append_empty in *.
    + rewrite append_cons in H. cbn [toLowerCase] in H. injection H as Hc Hs.
      destruct (IH _ _ Hs) as [s1 [s2 [-> [H1 H2]]]].
      exists (String a s1), s2. rewrite append_cons. cbn [toLowerCase].
      by rewrite Hc, H1.
Qed.

Lemma prefix_append q :
  forall s, String.prefix q s = true <-> exists after, s = q ++ after.
Proof.
  induction q as [|a q IH]; intros s.
  - destruct s; cbn [String.prefix]; split; eauto.
  - destruct s as [|b s]; cbn [String.prefix].
    + split; [discriminate|]. intros [after H]. discriminate H.
    + destruct (ascii_dec a b) as [->|Hne].
      * rewrite IH. split; intros [after H]; exists after.
        -- by rewrite append_cons, H.
        -- rewrite append_cons in H. by injection H.
      * split; [discriminate|]. intros [after H].
        rewrite append_cons in H. congruence.
Qed.

Lemma includes_eq s q :
  includes s q =
  String.prefix q s ||
  match s with EmptyString => false | String _ s' => includes s' q end.
Proof. destruct s; reflexivity. Qed.

(** [includes] finds [q] exactly when [s] can be cut around a copy of it. *)
Lemma includes_append s :
  forall q, includes s q = true <-> exists before after, s = before ++ q ++ after.
Proof.
  induction s as [|a s IH]; intros q; rewrite includes_eq, orb_true_iff, prefix_append.
  - split.
    + intros [[after H]|H]; [|discriminate H]. by exists "", after.
    + intros [before [after H]]. left.
      destruct before; [by exists after|discriminate H].
  - rewrite IH. split.
    + intros [[after H]|[before [after H]]].
      * by exists "", after.
      * exists (String a before), after. by rewrite append_cons, H.
    + intros [before [after H]]. destruct before as [|c before].
      * left. by exists after.
      * right. rewrite append_cons in H. injection H as _ H.
        by exists before, after.
Qed.

Lemma includes_toLowerCase s q :
  includes (toLowerCase s) (toLowerCase q) = true <-> containsUpToCase s q.
Proof.
  rewrite includes_append. unfold containsUpToCase. split.
  - intros [x [y H]].
    destruct (toLowerCase_split _ _ _ H) as [before [rest [-> [_ Hrest]]]].
    destruct (toLowerCase_split _ _ _ Hrest) as [middle [after [-> [Hm _]]]].
    exists before, middle, after. split; [reflexivity|].
    by apply equalUpToCase_toLowerCase.
  - intros [before [middle [after [-> Hm]]]].
    apply equalUpToCase_toLowerCase in Hm.
    exists (toLowerCase before), (toLowerCase after).
    by rewrite !toLowerCase_append, Hm.
Qed.

Lemma optIncludes_toLowerCase field q :
  optIncludes field (toLowerCase q) = true <->
  exists s, field = Some s /\ containsUpToCase s q.
Proof.
  destruct field as [s|]; cbn [optIncludes].
  - rewrite includes_toLowerCase. split; [eauto|].
    intros [s' [E H]]. by injection E as ->.
  - split; [discriminate|]. intros [s [E _]]. discriminate E.
Qed.

(** The filter at the mapping of the letters [A]..[Z], letter by letter:
    with the empty query it hands back the list it was given; with any
    other query it keeps, in their order, exactly the items whose name,
    summary (when there is one) or description (when there is one) has a
    substring that agrees with the query letter for letter, case apart. *)
Theorem filteredNav_spec (navItems : list TypeItem) (query : string) :
  (query = "" -> filteredNav navItems query = navItems) /\
  (query <> "" ->
   exists keep : TypeItem -> bool,
     (forall item, keep item = true <-> matchesQuery item query) /\
     filteredNav navItems query = List.filter keep navItems).
Proof.
  split.
  - intros ->. reflexivity.
  - intros Hq. unfold filteredNav.
    destruct (String.eqb query "") eqn:E; [by apply String.eqb_eq in E|].
    eexists. split; [|reflexivity].
    intros item. cbv beta. unfold matchesQuery.
    rewrite !orb_true_iff, includes_toLowerCase, !optIncludes_toLowerCase. tauto.
Qed.

Lemma filteredNav_spec_witness :
  filteredNav sampleItems "" = sampleItems /\
  exists keep : TypeItem -> bool,
    (forall item, keep item = true <-> matchesQuery item "days") /\
    filteredNav sampleItems "days" = List.filter keep sampleItems.
Proof.
  split.
  - apply (proj1 (filteredNav_spec sampleItems "")). reflexivity.
  - apply (proj2 (filteredNav_spec sampleItems "days")). discriminate.
Defined.

(** ** DocUsage *)

Lemma tabsInclude_In tabs s : tabsInclude tabs s = true <-> In s tabs.
Proof.
  unfold tabsInclude. rewrite existsb_exists. split.
  - intros [x [Hx E]]. apply String.eqb_eq in E. by subst.
  - intros H. exists s. split; [exact H|apply String.eqb_refl].
Qed.

Lemma tabsInclude_not_In tabs s : ~ In s tabs -> tabsInclude tabs s = false.
Proof.
  intros H. destruct (tabsInclude tabs s) eqn:E; [|reflexivity].
  by apply tabsInclude_In in E.
Qed.

(** What the mount effect does, by what the store holds. *)
Lemma onMount_stored storage s :
  storedPreference storage = Some s ->
  onMount (mount storage) = mkWorld s storage.
Proof.
  unfold storedPreference, onMount, mount. cbn [localStorage source].
  destruct (getItem LOCALSTORAGE_KEY storage) as [v|]; [|discriminate].
  destruct (String.eqb v ""); [discriminate|]. by intros [= ->].
Qed.

Lemma onMount_unset storage :
  storedPreference storage = None ->
  onMount (mount storage) =
    mkWorld DEFAULT_SOURCE (setItem LOCALSTORAGE_KEY DEFAULT_SOURCE storage).
Proof.
  unfold storedPreference, onMount, mount. cbn [localStorage source].
  destruct (getItem LOCALSTORAGE_KEY storage) as [v|]; [|reflexivity].
  destruct (String.eqb v ""); [reflexivity|discriminate].
Qed.

(** C5, as stated, fails: the fallback is the first tab, not
    ["commonjs"].  With the tabs [esm, commonjs] and the stored name
    ["umd"], and with the single tab [esm] and nothing stored, the tab
    shown is ["esm"]. *)
Lemma DocUsage_fallback_is_not_the_default :
  ~ In "umd" ["esm"; "commonjs"] /\
  selectedTab (mkProps sampleUsage ["esm"; "commonjs"])
    (onMount (mount {[ LOCALSTORAGE_KEY := "umd" ]})) = Some "esm" /\
  selectedTab (mkProps sampleUsage ["esm"]) (onMount (mount ∅)) = Some "esm" /\
  Some "esm" <> Some DEFAULT_SOURCE.
Proof.
  split; [|split; [|split]].
  - intros [H|[H|[]]]; discriminate H.
  - vm_compute. reflexivity.
  - vm_compute. reflexivity.
  - discriminate.
Qed.

(** C5, amended. When the tabs of the current type do not include the
    stored tab name, the tab shown after activation is the first tab of
    the type; when nothing is stored (the empty string counts as nothing),
    it is ["commonjs"] if the type has that tab and the first tab
    otherwise. *)
Theorem DocUsage_fallback (p : Props) (storage : gmap string string) :
  (forall s, storedPreference storage = Some s -> ~ In s (usageTabs p)) ->
  selectedTab p (onMount (mount storage)) =
    match storedPreference storage with
    | Some _ => head (usageTabs p)
    | None =>
        if tabsInclude (usageTabs p) DEFAULT_SOURCE then Some DEFAULT_SOURCE
        else head (usageTabs p)
    end.
Proof.
  intros Hstale. destruct (storedPreference storage) as [s|] eqn:E.
  - rewrite (onMount_stored _ _ E). unfold selectedTab. cbn [source].
    by rewrite (tabsInclude_not_In _ _ (Hstale s eq_refl)).
  - rewrite (onMount_unset _ E). reflexivity.
Qed.

Lemma DocUsage_fallback_witness :
  let p := mkProps sampleUsage ["esm"; "commonjs"] in
  let storage : gmap string string := {[ LOCALSTORAGE_KEY := "umd" ]} in
  (forall s, storedPreference storage = Some s -> ~ In s (usageTabs p)) /\
  selectedTab p (onMount (mount storage)) =
    match storedPreference storage with
    | Some _ => head (usageTabs p)
    | None =>
        if tabsInclude (usageTabs p) DEFAULT_SOURCE then Some DEFAULT_SOURCE
        else head (usageTabs p)
    end.
Proof.
  intros p storage.
  assert (H : forall s, storedPreference storage = Some s -> ~ In s (usageTabs p)).
  { intros s H. vm_compute in H. injection H as <-.
    intros [E|[E|[]]]; discriminate E. }
  split; [exact H|]. apply (DocUsage_fallback p storage H).
Defined.

(** C6, as stated, fails for one stored value: the empty string is a
    value the store can hold and it is not among the tabs, yet the
    component takes it for no preference at all, shows ["commonjs"]
    although the first tab is ["esm"], and overwrites it. *)
Lemma DocUsage_empty_preference_overwritten :
  getItem LOCALSTORAGE_KEY {[ LOCALSTORAGE_KEY := "" ]} = Some "" /\
  ~ In "" ["esm"; "commonjs"] /\
  selectedTab (mkProps sampleUsage ["esm"; "commonjs"])
    (onMount (mount {[ LOCALSTORAGE_KEY := "" ]})) = Some "commonjs" /\
  head ["esm"; "commonjs"] = Some "esm" /\
  getItem LOCALSTORAGE_KEY
    (localStorage (onMount (mount {[ LOCALSTORAGE_KEY := "" ]}))) = Some "commonjs".
Proof.
  split; [vm_compute; reflexivity|]. split.
  { intros [H|[H|[]]]; discriminate H. }
  split; [vm_compute; reflexivity|]. split; [reflexivity|].
  vm_compute. reflexivity.
Qed.

(** C6, amended. For every non-empty stored preference that is not among
    the tabs of the current type, the tab shown after activation is the
    first tab of the type, and the store is left exactly as it was: the
    preference is still there. *)
Theorem DocUsage_stale_preference_kept
    (p : Props) (storage : gmap string string) (s : string) :
  getItem LOCALSTORAGE_KEY storage = Some s ->
  s <> "" ->
  ~ In s (usageTabs p) ->
  selectedTab p (onMount (mount storage)) = head (usageTabs p) /\
  localStorage (onMount (mount storage)) = storage /\
  getItem LOCALSTORAGE_KEY (localStorage (onMount (mount storage))) = Some s.
Proof.
  intros Hget Hne Hstale.
  assert (E : storedPreference storage = Some s).
  { unfold storedPreference. rewrite Hget.
    destruct (String.eqb s "") eqn:Es; [by apply String.eqb_eq in Es|reflexivity]. }
  rewrite (onMount_stored _ _ E). cbn [localStorage].
  split; [|by split].
  unfold selectedTab. cbn [source]. by rewrite (tabsInclude_not_In _ _ Hstale).
Qed.

Lemma DocUsage_stale_preference_kept_witness :
  selectedTab (mkProps sampleUsage ["commonjs"])
    (onMount (mount {[ LOCALSTORAGE_KEY := "esm" ]})) = head ["commonjs"] /\
  localStorage (onMount (mount {[ LOCALSTORAGE_KEY := "esm" ]}))
    = {[ LOCALSTORAGE_KEY := "esm" ]} /\
  getItem LOCALSTORAGE_KEY
    (localStorage (onMount (mount {[ LOCALSTORAGE_KEY := "esm" ]}))) = Some "esm".
Proof.
  apply (DocUsage_stale_preference_kept (mkProps sampleUsage ["commonjs"])
           {[ LOCALSTORAGE_KEY := "esm" ]} "esm").
  - vm_compute. reflexivity.
  - discriminate.
  - intros [E|[]]. discriminate E.
Defined.

(** The component throws exactly when the selected tab has no usage. *)
Lemma DocUsage_TypeError p w :
  DocUsage p w = TypeError <-> usage p !! propertyKey (selectedTab p w) = None.
Proof.
  unfold DocUsage, selectedUsage.
  destruct (usage p !! propertyKey (selectedTab p w)); split; congruence.
Qed.

(** C7. The claim does not hold of the code.  With the tabs
    [commonjs, esm], a usage object that has no ["commonjs"] entry and
    nothing stored, the tab selected is ["commonjs"], its usage is
    [undefined], and rendering throws on [selectedUsage.code]; the list of
    links, built a few lines above, does skip the missing entry. *)
Theorem DocUsage_render_throws :
  let p := mkProps (delete "commonjs" sampleUsage) ["commonjs"; "esm"] in
  let w := onMount (mount ∅) in
  selectedTab p w = Some "commonjs" /\
  selectedUsage p w = None /\
  DocUsage p w = TypeError.
Proof. vm_compute. repeat split; reflexivity. Qed.


(** * Further properties of the code *)

Local Open Scope list_scope.

(** ** extractTypes, continued *)

Lemma modalTypes_collected doc σ : modalTypes doc σ = collected doc.
Proof.
  unfold modalTypes, readArray. rewrite extractTypes_fresh. cbn [arrays].
  by rewrite lookup_insert_eq.
Qed.

(** X1. Handed an array that already exists, [extractTypes] returns that
    very reference; the array then holds what it held before followed by
    what a call without accumulator returns, no other array is written and
    the console receives the same lines. *)
Theorem extractTypes_accumulates
    (dec : Reflection) (types : loc) (σ : Store) (old : list Reflection) :
  arrays σ !! types = Some old ->
  exists σ',
    extractTypes dec (Some types) σ = (types, σ') /\
    arrays σ' !! types = Some (old ++ modalTypes dec σ) /\
    (forall l, l <> types -> arrays σ' !! l = arrays σ !! l) /\
    console σ' = console (snd (extractTypes dec None σ)).
Proof.
  intros Hold. eexists. rewrite (extractTypes_into dec types σ old Hold).
  split; [reflexivity|]. rewrite modalTypes_collected, extractTypes_fresh.
  cbn [arrays console snd]. split; [apply lookup_insert_eq|].
  split; [|reflexivity]. intros l Hl. by apply lookup_insert_ne.
Qed.

Lemma extractTypes_accumulates_witness :
  let σ := mkStore {[ 3%nat := [leaf 9 "Day" "Type alias"] ]} [] in
  arrays σ !! 3%nat = Some [leaf 9 "Day" "Type alias"] /\
  exists σ',
    extractTypes sampleProject (Some 3%nat) σ = (3%nat, σ') /\
    arrays σ' !! 3%nat
      = Some ([leaf 9 "Day" "Type alias"] ++ modalTypes sampleProject σ) /\
    (forall l, l <> 3%nat -> arrays σ' !! l = arrays σ !! l) /\
    console σ' = console (snd (extractTypes sampleProject None σ)).
Proof.
  intros σ.
  assert (H : arrays σ !! 3%nat = Some [leaf 9 "Day" "Type alias"]).
  { vm_compute. reflexivity. }
  split; [exact H|].
  apply (extractTypes_accumulates sampleProject 3%nat σ _ H).
Defined.

Lemma sublist_flat_map {A B} (f g : A -> list B) (l : list A) :
  Forall (fun x => f x `sublist_of` g x) l ->
  flat_map f l `sublist_of` flat_map g l.
Proof.
  induction 1 as [|x l Hx _ IH]; [constructor|].
  cbn [flat_map]. by apply sublist_app.
Qed.

Lemma sublist_map {A B} (f : A -> B) (l k : list A) :
  l `sublist_of` k -> map f l `sublist_of` map f k.
Proof.
  induction 1; cbn [map]; by constructor.
Qed.

Lemma filter_sublist {A} (p : A -> bool) (l : list A) :
  List.filter p l `sublist_of` l.
Proof.
  induction l as [|x l IH]; cbn [List.filter]; [constructor|].
  destruct (p x); by constructor.
Qed.

Lemma collected_sublist dec :
  collected dec `sublist_of` List.filter isType (descendants dec).
Proof.
  induction dec using Reflection_nested_ind with (Q := fun _ => True); try exact I.
  rewrite collected_eq, descendants_eq; simpl.
  destruct ch as [cs|]; [|constructor].
  simpl in H. induction H as [|c rest Hc _ IH]; [constructor|].
  cbn [flat_map].
  change (c :: descendants c ++ ?l) with ((c :: descendants c) ++ l).
  rewrite List.filter_app. apply sublist_app; [|exact IH].
  cbn [List.filter]. unfold isType at 1.
  destruct (isIgnoredKind (kindString c)) eqn:Hig.
  - apply sublist_nil_l.
  - destruct (isTypeKind (kindString c)) eqn:Hty; [|exact Hc].
    apply sublist_skip, sublist_nil_l.
Qed.

(** X2. Whatever the tree, what [extractTypes] returns is a subsequence
    of the Interface and Type alias nodes below the root taken in document
    order: it never returns a node twice, out of order, or of another
    kind. *)
Theorem extractTypes_subsequence (doc : Reflection) (σ : Store) :
  modalTypes doc σ `sublist_of` List.filter isType (descendants doc).
Proof. rewrite modalTypes_collected. apply collected_sublist. Qed.

Lemma sublist_same_length {A} (l k : list A) :
  l `sublist_of` k -> length l = length k -> l = k.
Proof.
  induction 1 as [|x l k _ IH|x l k Hs _]; cbn [length]; intros Hlen.
  - reflexivity.
  - f_equal. apply IH. lia.
  - apply sublist_length in Hs. lia.
Qed.

Lemma sublist_app_eq {A} (l1 l2 k1 k2 : list A) :
  l1 `sublist_of` k1 -> l2 `sublist_of` k2 ->
  l1 ++ l2 = k1 ++ k2 -> l1 = k1 /\ l2 = k2.
Proof.
  intros H1 H2 E.
  pose proof (sublist_length _ _ H1). pose proof (sublist_length _ _ H2).
  pose proof (f_equal length E) as HL. rewrite !length_app in HL.
  split; apply sublist_same_length; auto; lia.
Qed.

Lemma filter_nil_none {A} (p : A -> bool) l :
  List.filter p l = [] -> forallb (fun x => negb (p x)) l = true.
Proof.
  induction l as [|x l IH]; cbn [List.filter forallb]; [reflexivity|].
  destruct (p x); [discriminate|]. intros H. by rewrite IH.
Qed.

Lemma collected_exact_inv dec :
  collected dec = List.filter isType (descendants dec) ->
  typesOnlyUnderWrappers dec = true.
Proof.
  induction dec using Reflection_nested_ind with (Q := fun _ => True); try exact I.
  rewrite collected_eq, descendants_eq, typesOnlyUnderWrappers_eq; simpl.
  destruct ch as [cs|]; [|reflexivity].
  simpl in H. induction H as [|c rest Hc _ IH]; [reflexivity|].
  cbn [flat_map forallb].
  change (c :: descendants c ++ ?l) with ((c :: descendants c) ++ l).
  rewrite List.filter_app. intros E.
  apply sublist_app_eq in E as [Ec Erest].
  - rewrite (IH Erest), andb_true_r. clear IH Erest.
    cbn [List.filter] in Ec. unfold isType at 1 in Ec.
    destruct (isIgnoredKind (kindString c)) eqn:Hig; cbn [orb].
    + rewrite (ignored_not_type _ Hig) in Ec. apply filter_nil_none. by symmetry.
    + destruct (isTypeKind (kindString c)) eqn:Hty.
      * apply filter_nil_none. by injection Ec.
      * by apply Hc.
  - cbn [List.filter]. unfold isType at 1.
    destruct (isIgnoredKind (kindString c)) eqn:Hig; [apply sublist_nil_l|].
    destruct (isTypeKind (kindString c)) eqn:Hty; [|apply collected_sublist].
    apply sublist_skip, sublist_nil_l.
  - clear. induction rest as [|c rest IH]; [constructor|].
    cbn [flat_map].
    change (c :: descendants c ++ ?l) with ((c :: descendants c) ++ l).
    rewrite List.filter_app. apply sublist_app; [|exact IH].
    cbn [List.filter]. unfold isType at 1.
    destruct (isIgnoredKind (kindString c)) eqn:Hig; [apply sublist_nil_l|].
    destruct (isTypeKind (kindString c)) eqn:Hty; [|apply collected_sublist].
    apply sublist_skip, sublist_nil_l.
Qed.

(** X3. [extractTypes] returns every Interface and Type alias node of the
    tree exactly when none of them lies below a Module, a Function, an
    Interface or a Type alias: a type nested in any of these is lost. *)
Theorem extractTypes_complete_iff (doc : Reflection) (σ : Store) :
  modalTypes doc σ = List.filter isType (descendants doc) <->
  typesOnlyUnderWrappers doc = true.
Proof.
  rewrite modalTypes_collected. split.
  - apply collected_exact_inv.
  - apply collected_exact.
Qed.

Lemma logged_unhandled dec :
  Forall (fun entry => isUnhandledKind (fst entry) = true /\
                       fst entry = kindString (snd entry) /\
                       In (snd entry) (descendants dec)) (logged dec).
Proof.
  induction dec using Reflection_nested_ind with (Q := fun _ => True); try exact I.
  rewrite logged_eq, descendants_eq; simpl. destruct ch as [cs|]; [|constructor].
  simpl in H. induction H as [|c rest Hc _ IH]; [constructor|].
  cbn [flat_map]. apply Forall_app. split.
  - destruct (isIgnoredKind (kindString c)) eqn:Hig; [constructor|].
    destruct (isTypeKind (kindString c)) eqn:Hty; [constructor|].
    constructor.
    + cbn [fst snd]. unfold isUnhandledKind. rewrite Hig, Hty.
      split; [reflexivity|]. split; [reflexivity|]. by left.
    + eapply Forall_impl; [exact Hc|]. intros e (Ha & Hb & Hd).
      split; [exact Ha|]. split; [exact Hb|].
      right. apply in_or_app. by left.
  - eapply Forall_impl; [exact IH|]. intros e (Ha & Hb & Hd).
    split; [exact Ha|]. split; [exact Hb|].
    right. apply in_or_app. by right.
Qed.

(** X4. A call of [extractTypes] only adds to the console, and every line
    it adds reports a node below the root whose kind is none of Module,
    Function, Interface and Type alias, together with that kind. *)
Theorem extractTypes_console (dec : Reflection) (acc : option loc) (σ : Store) :
  (forall types, acc = Some types -> is_Some (arrays σ !! types)) ->
  exists lines,
    console (snd (extractTypes dec acc σ)) = console σ ++ lines /\
    Forall (fun entry => isUnhandledKind (fst entry) = true /\
                         fst entry = kindString (snd entry) /\
                         In (snd entry) (descendants dec)) lines.
Proof.
  intros Hacc. exists (logged dec). split; [|apply logged_unhandled].
  destruct acc as [types|].
  - destruct (Hacc types eq_refl) as [old Hold].
    by rewrite (extractTypes_into dec types σ old Hold).
  - by rewrite extractTypes_fresh.
Qed.

Lemma extractTypes_console_witness :
  exists lines,
    console (snd (extractTypes sampleProject None emptyStore))
      = console emptyStore ++ lines /\
    Forall (fun entry => isUnhandledKind (fst entry) = true /\
                         fst entry = kindString (snd entry) /\
                         In (snd entry) (descendants sampleProject)) lines.
Proof.
  apply (extractTypes_console sampleProject None emptyStore).
  intros types H. discriminate H.
Defined.

(** ** buildMap *)

Lemma lastWithId_Some k l t :
  lastWithId k l = Some t -> id t = k /\ In t l.
Proof.
  induction l as [|x l IH]; cbn [lastWithId]; [discriminate|].
  destruct (lastWithId k l) as [y|].
  - intros [= <-]. destruct (IH eq_refl) as [? ?]. split; [done|by right].
  - destruct (Z.eqb_spec (id x) k); [|discriminate].
    intros [= <-]. split; [done|by left].
Qed.

Lemma lastWithId_None k l :
  lastWithId k l = None <-> forall t, In t l -> id t <> k.
Proof.
  induction l as [|x l IH]; cbn [lastWithId].
  - split; [intros _ t []|reflexivity].
  - destruct (lastWithId k l) as [y|] eqn:E.
    + split; [discriminate|]. intros H.
      destruct (lastWithId_Some _ _ _ E) as [Hid Hin].
      exfalso. apply (H y); [by right|done].
    + destruct (Z.eqb_spec (id x) k) as [Hx|Hx].
      * split; [discriminate|]. intros H. exfalso. apply (H x); [by left|done].
      * split; [|reflexivity]. intros _ t [<-|Hin]; [done|].
        by apply (proj1 IH).
Qed.

Lemma lastWithId_last k pre t post :
  id t = k -> (forall u, In u post -> id u <> k) ->
  lastWithId k (pre ++ t :: post) = Some t.
Proof.
  intros Hid Hpost. induction pre as [|x pre IH].
  - cbn [app lastWithId]. rewrite (proj2 (lastWithId_None k post) Hpost).
    by rewrite (proj2 (Z.eqb_eq _ _) Hid).
  - cbn [app lastWithId]. by rewrite IH.
Qed.

(** Writing [v x] under [id x] for every [x] of a list, in order: what can
    be read afterwards. *)
Lemma lookup_fold_insert {V} (v : Reflection -> V) (l : list Reflection) k :
  forall m : gmap Z V,
    fold_left (fun m x => <[id x := v x]> m) l m !! k =
    match lastWithId k l with
    | Some x => Some (v x)
    | None => m !! k
    end.
Proof.
  induction l as [|x l IH]; intros m; [reflexivity|].
  cbn [fold_left lastWithId]. rewrite IH.
  destruct (lastWithId k l) as [y|]; [reflexivity|].
  destruct (Z.eqb_spec (id x) k) as [<-|Hne].
  - apply lookup_insert_eq.
  - by apply lookup_insert_ne.
Qed.

Lemma buildMap_lastWithId types k : buildMap types !! k = lastWithId k types.
Proof.
  unfold buildMap. rewrite (lookup_fold_insert (fun t => t)).
  destruct (lastWithId k types); [reflexivity|apply lookup_empty].
Qed.

(** X5. Looking a key up in the object [buildMap] returns: what is found
    is one of the types and carries the key as its id; a type is found as
    soon as one of the types has that id; and of several types with the
    same id the last one is the one found. *)
Theorem buildMap_lookup (types : list Reflection) (k : Z) :
  (forall t, buildMap types !! k = Some t -> id t = k /\ In t types) /\
  (buildMap types !! k = None <-> forall t, In t types -> id t <> k) /\
  (forall before t after,
      types = before ++ t :: after -> id t = k ->
      (forall u, In u after -> id u <> k) ->
      buildMap types !! k = Some t).
Proof.
  rewrite buildMap_lastWithId. split; [|split].
  - intros t. apply lastWithId_Some.
  - apply lastWithId_None.
  - intros before t after -> Hid Hafter. by apply lastWithId_last.
Qed.

Lemma buildMap_lookup_witness :
  let types := [leaf 1 "A" "Interface"; leaf 2 "B" "Interface"; leaf 1 "C" "Type alias"] in
  (forall t, buildMap types !! 1 = Some t -> id t = 1 /\ In t types) /\
  (buildMap types !! 3 = None) /\
  buildMap types !! 1 = Some (leaf 1 "C" "Type alias").
Proof.
  intros types.
  destruct (buildMap_lookup types 1) as (H1 & _ & H3).
  destruct (buildMap_lookup types 3) as (_ & H2 & _).
  split; [exact H1|]. split.
  - apply H2. intros t [<-|[<-|[<-|[]]]]; discriminate.
  - apply (H3 [leaf 1 "A" "Interface"; leaf 2 "B" "Interface"] _ []); try reflexivity.
    intros u [].
Defined.

Lemma buildMap_snoc types t :
  buildMap (types ++ [t]) = <[id t := t]> (buildMap types).
Proof. unfold buildMap. by rewrite fold_left_app. Qed.

Lemma buildMap_size types :
  NoDup (map id types) -> size (buildMap types) = length types.
Proof.
  induction types as [|t types IH] using rev_ind; intros Hnd.
  - reflexivity.
  - rewrite map_app in Hnd. apply NoDup_app in Hnd as (Hnd & Hfresh & _).
    rewrite buildMap_snoc, map_size_insert_None, length_app, (IH Hnd).
    + cbn [length]. lia.
    + rewrite buildMap_lastWithId. apply lastWithId_None.
      intros u Hu Hid. apply (Hfresh (id u)).
      * apply list_elem_of_In, in_map. exact Hu.
      * rewrite Hid. cbn [map]. by left.
Qed.

Lemma NoDup_lastWithId types t :
  NoDup (map id types) -> In t types -> lastWithId (id t) types = Some t.
Proof.
  intros Hnd Hin. apply in_split in Hin as (before & after & ->).
  apply lastWithId_last; [reflexivity|].
  intros u Hu Hid. rewrite map_app in Hnd. cbn [map] in Hnd.
  apply NoDup_app in Hnd as (_ & _ & Hnd). apply NoDup_cons in Hnd as [Hnot _].
  apply Hnot. rewrite <- Hid. apply list_elem_of_In, in_map. exact Hu.
Qed.

Lemma sublist_In {A} (l k : list A) x : l `sublist_of` k -> In x l -> In x k.
Proof.
  induction 1 as [|y l k _ IH|y l k _ IH]; [done| |].
  - intros [->|Hin]; [by left|right; auto].
  - intros Hin. right. auto.
Qed.

Lemma modalTypes_NoDup doc σ :
  NoDup (map id (descendants doc)) -> NoDup (map id (modalTypes doc σ)).
Proof.
  intros Hnd. eapply sublist_NoDup; [exact Hnd|].
  apply sublist_map. etransitivity; [apply extractTypes_subsequence|].
  apply filter_sublist.
Qed.

(** X6. When the ids of the nodes below the root are pairwise distinct,
    the index built from the extracted types has exactly one entry per
    extracted type, and looking up the id of an extracted type gives that
    type back. *)
Theorem buildMap_extractTypes (doc : Reflection) (σ : Store) :
  NoDup (map id (descendants doc)) ->
  size (buildMap (modalTypes doc σ)) = length (modalTypes doc σ) /\
  forall t, In t (modalTypes doc σ) -> modalType doc (id t) σ = Some t.
Proof.
  intros Hnd. pose proof (modalTypes_NoDup doc σ Hnd) as Hnd'. split.
  - by apply buildMap_size.
  - intros t Hin. unfold modalType. rewrite buildMap_lastWithId.
    by apply NoDup_lastWithId.
Qed.

Lemma buildMap_extractTypes_witness :
  NoDup (map id (descendants sampleProject)) /\
  size (buildMap (modalTypes sampleProject emptyStore))
    = length (modalTypes sampleProject emptyStore) /\
  forall t, In t (modalTypes sampleProject emptyStore) ->
            modalType sampleProject (id t) emptyStore = Some t.
Proof.
  assert (H : NoDup (map id (descendants sampleProject))).
  { apply (bool_decide_unpack _). vm_compute. exact I. }
  split; [exact H|]. apply (buildMap_extractTypes sampleProject emptyStore H).
Defined.

(** ** useTypesModal *)

Lemma isTypeKind_cases k :
  isTypeKind k = true -> k = Some "Interface"%string \/ k = Some "Type alias"%string.
Proof.
  destruct k as [s|]; cbn [isTypeKind]; [|discriminate].
  intros [H|H]%orb_true_iff; apply String.eqb_eq in H; subst; auto.
Qed.

Lemma modalType_Some doc typeId σ t :
  modalType doc typeId σ = Some t ->
  id t = typeId /\ In t (modalTypes doc σ).
Proof.
  unfold modalType. rewrite buildMap_lastWithId. apply lastWithId_Some.
Qed.

Lemma modalTypes_isType doc σ t : In t (modalTypes doc σ) -> isType t = true.
Proof.
  rewrite modalTypes_collected. intros Hin.
  pose proof (collected_only_types doc) as H. rewrite Forall_forall in H.
  apply H. by apply list_elem_of_In.
Qed.

(** X7. The type the modal shows for [typeId] carries that id, is one of
    the nodes below the root of the documentation tree, and is an
    Interface or a Type alias. *)
Theorem modalType_found (doc : Reflection) (typeId : Z) (σ : Store) (t : Reflection) :
  modalType doc typeId σ = Some t ->
  id t = typeId /\
  In t (descendants doc) /\
  (kindString t = Some "Interface"%string \/ kindString t = Some "Type alias"%string).
Proof.
  intros H. destruct (modalType_Some _ _ _ _ H) as [Hid Hin].
  split; [exact Hid|]. split.
  - eapply sublist_In; [|exact Hin].
    etransitivity; [apply extractTypes_subsequence|apply filter_sublist].
  - apply isTypeKind_cases. by apply modalTypes_isType in Hin.
Qed.

Lemma modalType_found_witness :
  modalType sampleProject 5 emptyStore = Some (leaf 5 "Duration" "Type alias") /\
  id (leaf 5 "Duration" "Type alias") = 5 /\
  In (leaf 5 "Duration" "Type alias") (descendants sampleProject) /\
  (kindString (leaf 5 "Duration" "Type alias") = Some "Interface"%string \/
   kindString (leaf 5 "Duration" "Type alias") = Some "Type alias"%string).
Proof.
  assert (H : modalType sampleProject 5 emptyStore
              = Some (leaf 5 "Duration" "Type alias")).
  { vm_compute. reflexivity. }
  split; [exact H|]. apply (modalType_found sampleProject 5 emptyStore _ H).
Defined.

(** X8. For the type the modal shows, the usage section is always
    generated (from the name of the type), the badge reads "Alias" or
    "Interface" (never "Generic" or "TODO"), and [TypeContent] is either
    nothing or the Interface section listing the non-empty children of an
    Interface: the branch for type parameters is never taken. *)
Theorem modalType_display
    (Usage : Type) (generateTypeUsage : string -> Usage)
    (default_ : Reflection -> option SomeType)
    (doc : Reflection) (typeId : Z) (σ : Store) (t : Reflection) :
  modalType doc typeId σ = Some t ->
  modalUsage Usage generateTypeUsage (Some t) = Some (generateTypeUsage (name t)) /\
  (exists k, kindString t = Some k /\
     ((kindToBadgeTitle k = "Alias"%string /\ kindToBadgeStyle k = alias) \/
      (kindToBadgeTitle k = "Interface"%string /\ kindToBadgeStyle k = interface))) /\
  (TypeContent default_ t = NoContent \/
   exists c cs, kindString t = Some "Interface"%string /\
                children t = Some (c :: cs) /\
                TypeContent default_ t = InterfaceContent (c :: cs)).
Proof.
  intros H. destruct (modalType_found _ _ _ _ H) as (_ & _ & [Hk|Hk]).
  - split; [|split].
    + cbn [modalUsage]. rewrite Hk. reflexivity.
    + exists "Interface"%string. split; [exact Hk|]. right. by split.
    + unfold TypeContent. rewrite Hk. cbn [String.eqb Ascii.eqb Bool.eqb].
      destruct (children t) as [[|c cs]|]; [by left| |by left].
      right. by exists c, cs.
  - split; [|split].
    + cbn [modalUsage]. rewrite Hk. reflexivity.
    + exists "Type alias"%string. split; [exact Hk|]. left. by split.
    + left. unfold TypeContent. rewrite Hk. reflexivity.
Qed.

Lemma modalType_display_witness :
  modalUsage string (fun n => n) (Some (leaf 5 "Duration" "Type alias"))
    = Some "Duration"%string /\
  (exists k, kindString (leaf 5 "Duration" "Type alias") = Some k /\
     ((kindToBadgeTitle k = "Alias"%string /\ kindToBadgeStyle k = alias) \/
      (kindToBadgeTitle k = "Interface"%string /\ kindToBadgeStyle k = interface))) /\
  (TypeContent (fun _ => None) (leaf 5 "Duration" "Type alias") = NoContent \/
   exists c cs, kindString (leaf 5 "Duration" "Type alias") = Some "Interface"%string /\
                children (leaf 5 "Duration" "Type alias") = Some (c :: cs) /\
                TypeContent (fun _ => None) (leaf 5 "Duration" "Type alias")
                  = InterfaceContent (c :: cs)).
Proof.
  apply (modalType_display string (fun n => n) (fun _ => None)
           sampleProject 5 emptyStore (leaf 5 "Duration" "Type alias")).
  vm_compute. reflexivity.
Defined.

(** X9. When no extracted type has the requested id (the id of a Module,
    of a Function, of anything nested in them, or an id that does not
    occur), the modal finds no type: no usage is generated and the
    parent-type index is empty. *)
Theorem modalType_missing
    (Usage : Type) (generateTypeUsage : string -> Usage)
    (tag : Reflection -> Reflection -> string)
    (doc : Reflection) (typeId : Z) (σ : Store) :
  (forall t, In t (modalTypes doc σ) -> id t <> typeId) ->
  modalType doc typeId σ = None /\
  modalUsage Usage generateTypeUsage (modalType doc typeId σ) = None /\
  buildParentTypesMap tag (modalType doc typeId σ) None None = ∅.
Proof.
  intros Hno.
  assert (E : modalType doc typeId σ = None).
  { unfold modalType. rewrite buildMap_lastWithId. by apply lastWithId_None. }
  rewrite E. by repeat split.
Qed.

Lemma modalType_missing_witness :
  modalType sampleProject 3 emptyStore = None /\
  modalUsage string (fun n => n) (modalType sampleProject 3 emptyStore) = None /\
  buildParentTypesMap sampleHash (modalType sampleProject 3 emptyStore) None None = ∅.
Proof.
  apply (modalType_missing string (fun n => n) sampleHash sampleProject 3 emptyStore).
  intros t Hin. rewrite modalTypes_collected in Hin. cbv in Hin.
  destruct Hin as [<-|[<-|[<-|[]]]]; discriminate.
Defined.

Lemma map_type_navItems fS fD types : map type (navItems fS fD types) = types.
Proof.
  unfold navItems. rewrite map_map. cbn [type]. apply map_id.
Qed.

Lemma filteredNav_sublist items query : filteredNav items query `sublist_of` items.
Proof.
  unfold filteredNav. destruct (String.eqb query ""); [reflexivity|].
  apply filter_sublist.
Qed.

(** X10. The navigation of the modal lists extracted types only, in
    document order: with the empty query all of them, with any other query
    a subsequence of them. *)
Theorem modal_navigation
    (findSummary findDescription : Reflection -> option string)
    (doc : Reflection) (σ : Store) (query : string) :
  map type (filteredNav (navItems findSummary findDescription (modalTypes doc σ)) "")
    = modalTypes doc σ /\
  map type (filteredNav (navItems findSummary findDescription (modalTypes doc σ)) query)
    `sublist_of` modalTypes doc σ.
Proof.
  split.
  - cbn [filteredNav String.eqb]. apply map_type_navItems.
  - rewrite <- (map_type_navItems findSummary findDescription (modalTypes doc σ)) at 2.
    apply sublist_map, filteredNav_sublist.
Qed.

(** ** buildParentTypesMap, continued *)

Lemma lookup_fold_register tag focal (l : list Reflection) k (m : gmap Z string) :
  fold_left (register tag focal) l m !! k =
  match lastWithId k l with
  | Some P => Some (tag focal P)
  | None => m !! k
  end.
Proof. apply (lookup_fold_insert (tag focal)). Qed.

Lemma buildParentTypesMap_fold tag focal cur acc :
  buildParentTypesMap tag (Some focal) (Some cur) acc =
  fold_left (register tag focal) (registered cur)
    (match acc with Some m => m | None => ∅ end).
Proof. cbn [buildParentTypesMap]. apply visit_registered. Qed.

(** X11. Every entry of the map [buildParentTypesMap] returns for a focal
    node, started from the empty map, is the tag of a type parameter
    declared at some level of the walk, computed from the focal node, and
    stored under the id of that parameter.  This holds whether [type] is
    left to its default (the focal node) or given. *)
Theorem buildParentTypesMap_entries
    (tag : Reflection -> Reflection -> string)
    (focal : Reflection) (type : option Reflection) (k : Z) (v : string) :
  buildParentTypesMap tag (Some focal) type None !! k = Some v ->
  exists n cur P,
    In cur (levelAt n (match type with Some t => t | None => focal end)) /\
    In P (paramsOf cur) /\ id P = k /\ v = tag focal P.
Proof.
  set (start := match type with Some t => t | None => focal end).
  assert (E : buildParentTypesMap tag (Some focal) type None
              = buildParentTypesMap tag (Some focal) (Some start) None).
  { by destruct type. }
  rewrite E, buildParentTypesMap_fold, lookup_fold_register.
  destruct (lastWithId k (registered start)) as [P|] eqn:EP.
  - intros [= <-]. destruct (lastWithId_Some _ _ _ EP) as [Hid Hin].
    destruct (registered_level _ _ Hin) as (n & cur & Hcur & HP).
    by exists n, cur, P.
  - by rewrite lookup_empty.
Qed.

Lemma buildParentTypesMap_entries_witness :
  exists n cur P,
    In cur (levelAt n sampleMapper) /\
    In P (paramsOf cur) /\ id P = 12 /\ "Mapper/U"%string = sampleHash sampleMapper P.
Proof.
  apply (buildParentTypesMap_entries sampleHash sampleMapper None 12 "Mapper/U").
  vm_compute. reflexivity.
Defined.

(** X12. When parameters share an id the one registered last wins: the
    map read at [k] gives the tag of the last parameter with the id [k]
    in the order of registration (a node's own parameters, then those of
    the signatures met in its type expression, each with all that lies
    below it), and nothing when there is none. *)
Theorem buildParentTypesMap_last_wins
    (tag : Reflection -> Reflection -> string) (focal : Reflection) (k : Z) :
  buildParentTypesMap tag (Some focal) None None !! k =
  match lastWithId k (registered focal) with
  | Some P => Some (tag focal P)
  | None => None
  end.
Proof.
  change (buildParentTypesMap tag (Some focal) None None)
    with (buildParentTypesMap tag (Some focal) (Some focal) None).
  rewrite buildParentTypesMap_fold, lookup_fold_register.
  destruct (lastWithId k (registered focal)); [reflexivity|apply lookup_empty].
Qed.

(** X13. Passing a map as [accMap] amounts to laying the map of a call
    without [accMap] over it: entries of ids that are registered are
    overwritten, all others are kept.  In particular running the function
    again on its own result changes nothing. *)
Theorem buildParentTypesMap_accMap
    (tag : Reflection -> Reflection -> string)
    (focal cur : Reflection) (accMap : gmap Z string) :
  buildParentTypesMap tag (Some focal) (Some cur) (Some accMap) =
    buildParentTypesMap tag (Some focal) (Some cur) None ∪ accMap /\
  buildParentTypesMap tag (Some focal) (Some cur)
    (Some (buildParentTypesMap tag (Some focal) (Some cur) None)) =
    buildParentTypesMap tag (Some focal) (Some cur) None.
Proof.
  assert (H : forall acc,
    buildParentTypesMap tag (Some focal) (Some cur) (Some acc) =
    buildParentTypesMap tag (Some focal) (Some cur) None ∪ acc).
  { intros acc. apply map_eq. intros k.
    rewrite lookup_union, !buildParentTypesMap_fold, !lookup_fold_register.
    destruct (lastWithId k (registered cur)) as [P|].
    - by destruct (acc !! k).
    - rewrite lookup_empty. by destruct (acc !! k). }
  split; [apply H|]. rewrite H. apply map_eq. intros k.
  rewrite lookup_union.
  by destruct (buildParentTypesMap tag (Some focal) (Some cur) None !! k).
Qed.

(** X14. For a focal node whose type expression holds no inline
    signature, the map holds the tags of the node's own parameters and
    nothing else. *)
Theorem buildParentTypesMap_own_parameters
    (tag : Reflection -> Reflection -> string) (focal : Reflection) (k : Z) :
  inlineSignatures focal = [] ->
  buildParentTypesMap tag (Some focal) None None !! k =
  match lastWithId k (paramsOf focal) with
  | Some P => Some (tag focal P)
  | None => None
  end.
Proof.
  intros Hnone. rewrite buildParentTypesMap_last_wins.
  rewrite registered_levels_eq, Hnone. cbn [flat_map]. by rewrite app_nil_r.
Qed.

Lemma buildParentTypesMap_own_parameters_witness :
  let focal :=
    mkReflection 30 "Pair" (Some "Interface"%string) None None None
      (Some [typeParam 31; typeParam 32]) None in
  inlineSignatures focal = [] /\
  buildParentTypesMap sampleHash (Some focal) None None !! 32 =
  match lastWithId 32 (paramsOf focal) with
  | Some P => Some (sampleHash focal P)
  | None => None
  end.
Proof.
  intros focal. split; [reflexivity|].
  apply (buildParentTypesMap_own_parameters sampleHash focal 32). reflexivity.
Defined.

(** ** The search filter, continued *)

Local Open Scope string_scope.






Lemma eqb_empty_toLowerCase q :
  String.eqb (toLowerCase q) "" = String.eqb q "".
Proof. destruct q; reflexivity. Qed.



(** X16. The letter case of the query does not matter: two queries that
    are the same in lower case select the same items. *)
Theorem filteredNav_query_case (navItems : list TypeItem) (q1 q2 : string) :
  toLowerCase q1 = toLowerCase q2 ->
  filteredNav navItems q1 = filteredNav navItems q2.
Proof.
  intros E. unfold filteredNav.
  rewrite <- (eqb_empty_toLowerCase q1), <- (eqb_empty_toLowerCase q2), E.
  reflexivity.
Qed.

Lemma filteredNav_query_case_witness :
  filteredNav sampleItems "DAYS" = filteredNav sampleItems "days".
Proof.
  apply (filteredNav_query_case sampleItems "DAYS" "days"). reflexivity.
Defined.

Lemma filter_filter_same {A} (p : A -> bool) (l : list A) :
  List.filter p (List.filter p l) = List.filter p l.
Proof.
  induction l as [|x l IH]; [reflexivity|]. cbn [List.filter].
  destruct (p x) eqn:E; [|exact IH]. cbn [List.filter]. by rewrite E, IH.
Qed.

(** X17. Filtering is idempotent and works item by item: filtering a
    result again with the same query changes nothing, and the result for
    two lists put end to end is the two results put end to end. *)
Theorem filteredNav_idempotent (items more : list TypeItem) (query : string) :
  filteredNav (filteredNav items query) query = filteredNav items query /\
  filteredNav (items ++ more)%list query
    = (filteredNav items query ++ filteredNav more query)%list.
Proof.
  unfold filteredNav. destruct (String.eqb query ""); [by split|].
  split; [apply filter_filter_same|apply List.filter_app].
Qed.

(** ** DocUsage, continued *)

Local Open Scope list_scope.

Lemma head_In {A} (l : list A) x : head l = Some x -> In x l.
Proof. destruct l; [discriminate|]. intros [= ->]. by left. Qed.

(** X18. The tab selected for display is always one of the tabs of the
    current type, whatever the state and the store hold; there is none
    only when the type has no tab. *)
Theorem selectedTab_available (p : Props) (w : World) :
  match selectedTab p w with
  | Some t => In t (usageTabs p)
  | None => usageTabs p = []
  end.
Proof.
  unfold selectedTab. destruct (tabsInclude (usageTabs p) (source w)) eqn:E.
  - by apply tabsInclude_In.
  - destruct (usageTabs p) as [|t tabs]; [reflexivity|]. by left.
Qed.

(** X19. When the type has at least one tab and every tab has a usage
    entry, the component renders in every state: it shows the code and the
    text of the selected tab, and one link per tab. *)
Theorem DocUsage_renders (p : Props) (w : World) :
  usageTabs p <> [] ->
  (forall t, In t (usageTabs p) -> is_Some (usage p !! t)) ->
  exists t u v,
    selectedTab p w = Some t /\ usage p !! t = Some u /\
    DocUsage p w = Rendered v /\
    contentCode v = code u /\ contentText v = text u /\
    length (options v) = length (usageTabs p) /\
    Forall (fun link => link <> None) (options v).
Proof.
  intros Hne Hall. pose proof (selectedTab_available p w) as Hsel.
  destruct (selectedTab p w) as [t|] eqn:Et; [|done].
  destruct (Hall t Hsel) as [u Hu]. exists t, u. eexists.
  split; [reflexivity|]. split; [exact Hu|].
  unfold DocUsage, selectedUsage. rewrite Et. cbn [propertyKey]. rewrite Hu.
  split; [reflexivity|]. cbn [contentCode contentText options].
  split; [reflexivity|]. split; [reflexivity|]. split; [apply length_map|].
  apply Forall_forall. intros link Hlink%list_elem_of_In%in_map_iff.
  destruct Hlink as (tab & <- & Htab). destruct (Hall tab Htab) as [u' ->]. done.
Qed.

Lemma DocUsage_renders_witness :
  let p := mkProps sampleUsage ["commonjs"; "esm"]%string in
  let w := mkWorld "umd" ∅ in
  exists t u v,
    selectedTab p w = Some t /\ usage p !! t = Some u /\
    DocUsage p w = Rendered v /\
    contentCode v = code u /\ contentText v = text u /\
    length (options v) = length (usageTabs p) /\
    Forall (fun link => link <> None) (options v).
Proof.
  intros p w. apply (DocUsage_renders p w).
  - discriminate.
  - intros t [<-|[<-|[]]]; vm_compute; eauto.
Defined.

(** Under [noInheritedTab] every read the component makes, [usage[usageTab]]
    for a tab and [usage[selectedTab]], finds an entry of the object's own
    or nothing: the lookup in the map of own entries is the whole of it. *)
Lemma propertyRead_lookup (p : Props) (w : World) (k : string) :
  noInheritedTab p ->
  In k (usageTabs p) \/ k = propertyKey (selectedTab p w) ->
  propertyRead (usage p) k =
    match usage p !! k with Some u => OwnEntry u | None => Undefined end.
Proof.
  intros Hno Hk. unfold propertyRead.
  destruct (usage p !! k) as [u|] eqn:Eu; [reflexivity|].
  destruct (existsb (String.eqb k) objectPrototypeKeys) eqn:E; [|reflexivity].
  exfalso. apply existsb_exists in E as (x & Hx & Ex).
  apply String.eqb_eq in Ex. subst x.
  destruct Hk as [Hk|Hk]; [by apply (Hno k)|].
  pose proof (selectedTab_available p w) as Hsel.
  destruct (selectedTab p w) as [t|]; cbn [propertyKey] in Hk; subst k.
  - by apply (Hno t).
  - cbv in Hx. repeat (destruct Hx as [Hx|Hx]; [discriminate Hx|]). exact Hx.
Qed.

(** X20. In a view the component has rendered, the links are those of the
    tabs that have a usage entry, in the order of the tabs: each link
    carries the title of its usage, and it is marked current exactly when
    its tab is the selected one.  This supposes that no tab without an
    entry of its own bears the name of a member of [Object.prototype]
    (such as [toString]), which the read [usage[usageTab]] would find. *)
Theorem DocUsage_links (p : Props) (w : World) (v : View) :
  noInheritedTab p ->
  DocUsage p w = Rendered v ->
  map key (omap (fun link => link) (options v)) =
    List.filter (fun tab => bool_decide (is_Some (usage p !! tab))) (usageTabs p) /\
  forall link, In (Some link) (options v) ->
    In (key link) (usageTabs p) /\
    (exists u, usage p !! key link = Some u /\ linkTitle link = title u) /\
    (isCurrent link = true <-> selectedTab p w = Some (key link)).
Proof.
  intros _. unfold DocUsage. destruct (selectedUsage p w) as [u0|]; [|discriminate].
  intros [= <-]. cbn [options]. split.
  - induction (usageTabs p) as [|tab tabs IH]; [reflexivity|].
    cbn [map List.filter]. destruct (usage p !! tab) as [u|] eqn:Eu.
    + rewrite bool_decide_true by eauto. cbn [omap map key]. cbn. f_equal. exact IH.
    + rewrite bool_decide_false by (intros [? ?]; congruence). exact IH.
  - intros link (tab & Hlink & Htab)%in_map_iff.
    destruct (usage p !! tab) as [u|] eqn:Eu; [|discriminate].
    injection Hlink as <-. cbn [key linkTitle isCurrent].
    split; [exact Htab|]. split; [by exists u|].
    destruct (selectedTab p w) as [s|]; cbn [optionEqb].
    + rewrite String.eqb_eq. split; congruence.
    + split; discriminate.
Qed.

Lemma DocUsage_links_witness :
  let p := mkProps (delete "commonjs"%string sampleUsage) ["commonjs"; "esm"]%string in
  let w := mkWorld "esm" ∅ in
  noInheritedTab p /\
  exists v, DocUsage p w = Rendered v /\
  map key (omap (fun link => link) (options v)) =
    List.filter (fun tab => bool_decide (is_Some (usage p !! tab))) (usageTabs p) /\
  forall link, In (Some link) (options v) ->
    In (key link) (usageTabs p) /\
    (exists u, usage p !! key link = Some u /\ linkTitle link = title u) /\
    (isCurrent link = true <-> selectedTab p w = Some (key link)).
Proof.
  intros p w.
  assert (H : noInheritedTab p).
  { intros tab [<-|[<-|[]]] _ Hin; cbv in Hin;
      repeat (destruct Hin as [Hin|Hin]; [discriminate Hin|]); exact Hin. }
  split; [exact H|].
  eexists. split; [vm_compute; reflexivity|].
  apply (DocUsage_links p w _ H). vm_compute. reflexivity.
Defined.

(** X21. A click on the link of a tab (links exist only for tabs that
    have a usage entry) never makes the component throw: the tab clicked
    becomes the selected one, its code is what is shown and its link is
    the current one. *)
Theorem DocUsage_click (p : Props) (w : World) (usageTab : string) (u : FnUsageItem) :
  In usageTab (usageTabs p) ->
  usage p !! usageTab = Some u ->
  selectedTab p (onClick usageTab w) = Some usageTab /\
  exists v,
    DocUsage p (onClick usageTab w) = Rendered v /\
    contentCode v = code u /\ contentText v = text u /\
    In (Some (mkTabLink usageTab (title u) true)) (options v).
Proof.
  intros Hin Hu.
  assert (Hsel : selectedTab p (onClick usageTab w) = Some usageTab).
  { unfold selectedTab, onClick. cbn [source].
    by rewrite (proj2 (tabsInclude_In _ _) Hin). }
  split; [exact Hsel|]. unfold DocUsage, selectedUsage. rewrite Hsel.
  cbn [propertyKey]. rewrite Hu. eexists. split; [reflexivity|].
  cbn [contentCode contentText options]. split; [reflexivity|].
  split; [reflexivity|]. apply in_map_iff. exists usageTab.
  split; [|exact Hin]. rewrite Hu. cbn [optionEqb]. by rewrite String.eqb_refl.
Qed.

Lemma DocUsage_click_witness :
  let p := mkProps sampleUsage ["commonjs"; "esm"]%string in
  let w := onMount (mount ∅) in
  selectedTab p (onClick "esm" w) = Some "esm"%string /\
  exists v,
    DocUsage p (onClick "esm" w) = Rendered v /\
    contentCode v = "import type { Interval } from 'date-fns'"%string /\
    contentText v = None /\
    In (Some (mkTabLink "esm" "ESM" true)) (options v).
Proof.
  intros p w.
  apply (DocUsage_click p w "esm"
           (mkFnUsageItem "ESM" "import type { Interval } from 'date-fns'" None)).
  - right. left. reflexivity.
  - vm_compute. reflexivity.
Defined.

(** X22. The choice made by a click is global and survives a remount:
    after a click on a tab with a non-empty name, a component mounted
    later on the same store, for any type that has this tab, shows it.
    Of two clicks the second is the one that counts. *)
Theorem DocUsage_click_persists
    (p' : Props) (w : World) (first usageTab : string) :
  usageTab <> ""%string ->
  In usageTab (usageTabs p') ->
  selectedTab p' (onMount (mount (localStorage (onClick usageTab w)))) = Some usageTab /\
  onClick usageTab (onClick first w) = onClick usageTab w.
Proof.
  intros Hne Hin. split.
  - rewrite (onMount_stored _ usageTab).
    + unfold selectedTab. cbn [source]. by rewrite (proj2 (tabsInclude_In _ _) Hin).
    + unfold storedPreference, getItem, onClick, setItem. cbn [localStorage].
      rewrite lookup_insert_eq.
      destruct (String.eqb usageTab "") eqn:E; [by apply String.eqb_eq in E|done].
  - unfold onClick, setItem. cbn [localStorage]. by rewrite insert_insert_eq.
Qed.

Lemma DocUsage_click_persists_witness :
  let p' := mkProps sampleUsage ["commonjs"; "esm"]%string in
  selectedTab p' (onMount (mount (localStorage (onClick "esm" (onMount (mount ∅))))))
    = Some "esm"%string /\
  onClick "esm" (onClick "commonjs" (onMount (mount ∅))) = onClick "esm" (onMount (mount ∅)).
Proof.
  intros p'. apply (DocUsage_click_persists p' (onMount (mount ∅)) "commonjs" "esm").
  - discriminate.
  - right. left. reflexivity.
Defined.

(** X23. Once the mount effect has run, the store holds a non-empty
    preference and the component's state is that preference; mounting
    again on that store gives the same state and writes nothing new. *)
Theorem DocUsage_activation (storage : gmap string string) :
  let w := onMount (mount storage) in
  source w <> ""%string /\
  storedPreference (localStorage w) = Some (source w) /\
  onMount (mount (localStorage w)) = w.
Proof.
  cbv zeta. destruct (storedPreference storage) as [s|] eqn:E.
  - rewrite (onMount_stored _ _ E). cbn [source localStorage].
    assert (Hs : s <> ""%string).
    { unfold storedPreference in E. destruct (getItem _ _) as [v|]; [|discriminate].
      destruct (String.eqb v "") eqn:Ev; [discriminate|].
      injection E as <-. intros ->. discriminate Ev. }
    split; [exact Hs|]. split; [exact E|]. by apply onMount_stored.
  - rewrite (onMount_unset _ E). cbn [source localStorage].
    assert (E' : storedPreference (setItem LOCALSTORAGE_KEY DEFAULT_SOURCE storage)
                 = Some DEFAULT_SOURCE).
    { unfold storedPreference, getItem, setItem. by rewrite lookup_insert_eq. }
    split; [discriminate|]. split; [exact E'|]. by apply onMount_stored.
Qed.

(** X24. The component reads and writes the key ["usageSource"] only:
    neither the mount effect nor a click changes what the store holds
    under any other key, and a click stores the name of the tab clicked. *)
Theorem DocUsage_store_frame
    (storage : gmap string string) (w : World) (usageTab other : string) :
  other <> LOCALSTORAGE_KEY ->
  localStorage (onMount (mount storage)) !! other = storage !! other /\
  localStorage (onClick usageTab w) !! other = localStorage w !! other /\
  getItem LOCALSTORAGE_KEY (localStorage (onClick usageTab w)) = Some usageTab.
Proof.
  intros Hother. split; [|split].
  - unfold onMount, mount, setItem. cbn [localStorage source].
    destruct (getItem LOCALSTORAGE_KEY storage) as [v|].
    + destruct (String.eqb v ""); cbn [localStorage]; [|reflexivity].
      by apply lookup_insert_ne.
    + cbn [localStorage]. by apply lookup_insert_ne.
  - unfold onClick, setItem. cbn [localStorage]. by apply lookup_insert_ne.
  - unfold onClick, setItem, getItem. cbn [localStorage]. apply lookup_insert_eq.
Qed.

Lemma DocUsage_store_frame_witness :
  let storage : gmap string string := {[ "theme" := "dark" ]}%string in
  localStorage (onMount (mount storage)) !! "theme"%string = storage !! "theme"%string /\
  localStorage (onClick "esm" (onMount (mount storage))) !! "theme"%string
    = localStorage (onMount (mount storage)) !! "theme"%string /\
  getItem LOCALSTORAGE_KEY (localStorage (onClick "esm" (onMount (mount storage))))
    = Some "esm"%string.
Proof.
  intros storage.
  apply (DocUsage_store_frame storage (onMount (mount storage)) "esm" "theme").
  discriminate.
Defined.

(** X25. For a type without tabs the selected tab is [undefined]; the
    usage is then looked up under the key ["undefined"], and unless the
    usage object has such an entry the component throws, whatever the
    state. *)
Theorem DocUsage_no_tabs (p : Props) (w : World) :
  usageTabs p = [] ->
  usage p !! "undefined"%string = None ->
  selectedTab p w = None /\ DocUsage p w = TypeError.
Proof.
  intros Htabs Hu.
  assert (Hsel : selectedTab p w = None).
  { unfold selectedTab. by rewrite Htabs. }
  split; [exact Hsel|]. apply DocUsage_TypeError. by rewrite Hsel.
Qed.

Lemma DocUsage_no_tabs_witness :
  selectedTab (mkProps sampleUsage []) (onMount (mount ∅)) = None /\
  DocUsage (mkProps sampleUsage []) (onMount (mount ∅)) = TypeError.
Proof.
  apply (DocUsage_no_tabs (mkProps sampleUsage []) (onMount (mount ∅))).
  - reflexivity.
  - vm_compute. reflexivity.
Defined.

(** ** The navigation *)

Lemma NoDup_id_inj (l : list Reflection) a b :
  NoDup (map id l) -> In a l -> In b l -> id a = id b -> a = b.
Proof.
  intros Hnd Ha Hb Hid.
  pose proof (NoDup_lastWithId l a Hnd Ha) as Ea.
  pose proof (NoDup_lastWithId l b Hnd Hb) as Eb.
  rewrite Hid in Ea. congruence.
Qed.

(** X26. With pairwise distinct ids below the root, the entry highlighted
    in the navigation is the entry of the type on display and no other:
    an item of the (filtered) navigation is active exactly when its type
    is the one the modal shows. *)
Theorem navigation_active
    (findSummary findDescription : Reflection -> option string)
    (doc : Reflection) (σ : Store) (typeId : Z) (query : string)
    (t : Reflection) (item : TypeItem) :
  NoDup (map id (descendants doc)) ->
  modalType doc typeId σ = Some t ->
  In item (filteredNav (navItems findSummary findDescription (modalTypes doc σ)) query) ->
  (Z.eqb (id (type item)) typeId = true <-> type item = t) /\
  In (mkNavEntry (name (type item)) (summaryOrDescription item)
        (Z.eqb (id (type item)) typeId))
     (navEntries typeId
        (filteredNav (navItems findSummary findDescription (modalTypes doc σ)) query)).
Proof.
  intros Hnd Ht Hitem. split.
  - destruct (modalType_Some _ _ _ _ Ht) as [Hid Hin].
    assert (Hty : In (type item) (modalTypes doc σ)).
    { eapply sublist_In; [apply (modal_navigation findSummary findDescription doc σ query)|].
      by apply in_map. }
    rewrite Z.eqb_eq. split.
    + intros E. apply (NoDup_id_inj (modalTypes doc σ)); try done.
      * by apply modalTypes_NoDup.
      * congruence.
    + by intros ->.
  - unfold navEntries. apply in_map_iff. by exists item.
Qed.

Lemma navigation_active_witness :
  let item := mkTypeItem (leaf 5 "Duration" "Type alias") None None in
  (Z.eqb (id (type item)) 5 = true <-> type item = leaf 5 "Duration" "Type alias") /\
  In (mkNavEntry (name (type item)) (summaryOrDescription item)
        (Z.eqb (id (type item)) 5))
     (navEntries 5
        (filteredNav (navItems (fun _ => None) (fun _ => None)
                        (modalTypes sampleProject emptyStore)) "dur")).
Proof.
  intros item.
  apply (navigation_active (fun _ => None) (fun _ => None)
           sampleProject emptyStore 5 "dur" (leaf 5 "Duration" "Type alias") item).
  - apply (bool_decide_unpack _). vm_compute. exact I.
  - vm_compute. reflexivity.
  - vm_compute. left. reflexivity.
Defined.


(** ** The search filter over the built-in case mapping *)

Local Open Scope string_scope.


(** The filter of the first part is this one at the mapping of the letters
    [A]..[Z]. *)
Lemma filteredNav_instance navItems query :
  filteredNav navItems query = Js.filteredNav toLowerCase navItems query.
Proof. reflexivity. Qed.


